(** * rqt_bag_player: the main window of the bag player

    A shallow embedding of [MainWindow::Impl]
    (src/rqt_bag_player/mainwindow.cpp): its widgets and flags as a record,
    its slots as state transformers, every [QProcess::startDetached] call
    appended to a log of started processes.

    Conventions.
    - [int] values are [Z]; an overflowing [int] operation and a
      [double] to [int] conversion out of range are undefined behaviour.
    - [double] values are idealised: a finite double is an exact rational
      ([Q]), and one extra value stands for the non-finite doubles
      (infinities and NaN), which is what a division by zero produces.
      Rounding of finite results to 53 bits is not modelled.
    - [QString] is [string]; the text that [QString("%1").arg(d)] prints
      for a [double] is kept symbolic ([Number d]).
    - What the Qt widgets do (an action emits [toggled] only when its state
      changes, a slider bounds its value, a spin box rounds and bounds its
      value and emits [valueChanged] only when it changes) follows the Qt 5
      documentation; the signal connections are those of the source.
    - What comes from outside is an argument of the slot that reads it: the
      file name a dialog returns (the directory it starts in is left out),
      the contents of the bag, the topics of the master, the clock. Times
      are exact; the 32-bit range of [ros::Duration] is not modelled. *)

From Stdlib Require Import Bool String Ascii ZArith NArith QArith Qround Qabs.
From Stdlib Require Import List DecimalString DecimalN Lia Lqa.
Import ListNotations.

Open Scope string_scope.
Open Scope Z_scope.

(** ** Outcomes of running a slot *)

Inductive outcome (A : Type) : Type :=
| Done (a : A)      (* the slot returns *)
| Throws            (* a rosbag exception leaves the slot *)
| Undefined         (* undefined behaviour was reached *)
| Fuel.             (* the bound on nested signal deliveries was hit *)

Arguments Done {A} a.
Arguments Throws {A}.
Arguments Undefined {A}.
Arguments Fuel {A}.

Definition bind {A B : Type} (m : outcome A) (k : A -> outcome B) : outcome B :=
  match m with
  | Done a => k a
  | Throws => Throws
  | Undefined => Undefined
  | Fuel => Fuel
  end.

Notation "x <- m ;; k" := (bind m (fun x => k))
  (at level 61, m at next level, right associativity).

(** ** Numbers *)

Definition INT_MIN : Z := - 2 ^ 31.
Definition INT_MAX : Z := 2 ^ 31 - 1.

Definition in_int (z : Z) : bool := (INT_MIN <=? z) && (z <=? INT_MAX).

(** [a - b] on [int]. *)
Definition int_sub (a b : Z) : outcome Z :=
  if in_int (a - b) then Done (a - b) else Undefined.

Inductive double : Type :=
| Finite (q : Q)
| NonFinite.

Definition ddiv (x y : double) : double :=
  match x, y with
  | Finite a, Finite b => if Qeq_bool b 0 then NonFinite else Finite (a / b)
  | _, _ => NonFinite
  end.

Definition dmul (x y : double) : double :=
  match x, y with
  | Finite a, Finite b => Finite (a * b)
  | _, _ => NonFinite
  end.

(** [(double)z] for an [int] z: exact. *)
Definition int_to_double (z : Z) : double := Finite (inject_Z z).

(** Rounding toward zero. *)
Definition truncate (q : Q) : Z := Z.quot (Qnum q) (Zpos (Qden q)).

(** The implicit conversion of a [double] argument to an [int] parameter:
    truncation, undefined when the truncated value is not an [int]. *)
Definition double_to_int (x : double) : outcome Z :=
  match x with
  | Finite q => if in_int (truncate q) then Done (truncate q) else Undefined
  | NonFinite => Undefined
  end.

(** ** Strings *)

(** [QString::chop(n)]: removes the last [n] characters. *)
Definition chop (n : nat) (s : string) : string :=
  substring 0 (String.length s - n) s.

(** [QString::arg] with an unsigned 64-bit integer: its decimal digits. *)
Definition decimal (n : N) : string := NilEmpty.string_of_uint (N.to_uint n).

(** The entries of a [QStringList] of process arguments. *)
Inductive QArg : Type :=
| Text (s : string)
| Number (d : Q).      (* QString("%1").arg(d) for a double d *)

Record Process : Type := mkProcess {
  program : string;
  arguments : list QArg
}.

(** [list << x], as [QStringList::operator<<] and [std::vector::push_back]. *)
Notation "l << x" := (app l (cons x nil)) (at level 50, left associativity).

(** ** Widgets *)

Record QTreeWidgetItem : Type := mkItem {
  text : string;
  checkState : bool          (* Qt::Checked is true, Qt::Unchecked false *)
}.

Record QSlider : Type := mkSlider {
  minimum : Z;
  maximum : Z;
  value : Z
}.

(** [QAbstractSlider::setValue]: the value is forced into the range. *)
Definition QSlider_setValue (v : Z) (w : QSlider) : QSlider :=
  mkSlider (minimum w) (maximum w) (Z.max (minimum w) (Z.min (maximum w) v)).

(** The three spin boxes have the range 0.0 .. 9999.0 ([createToolBars])
    and the default two decimals. *)
Definition spin_minimum : Q := 0.
Definition spin_maximum : Q := 9999.

(** Rounding to two decimals, halves upwards. *)
Definition round2 (x : Q) : Q := Qmake (Qfloor (x * 100 + (1 # 2))) 100.

Definition qBound (lo x hi : Q) : Q :=
  if Qle_bool x lo then lo else if Qle_bool hi x then hi else x.

(** The value a spin box holds after [QDoubleSpinBox::setValue(x)]. *)
Definition QDoubleSpinBox_value (x : Q) : Q :=
  qBound spin_minimum (round2 x) spin_maximum.

(** ** ROS collaborators *)

(** [ros::Time], in nanoseconds. *)
Definition Time : Type := Z.

(** [(a - b).toSec()]. *)
Definition toSec_diff (a b : Time) : Q := Qmake (a - b) 1000000000.

Record ConnectionInfo : Type := mkConnection {
  topic : string;
  datatype : string
}.

(** What [rosbag::View] reports of an opened bag. *)
Record View : Type := mkView {
  getBeginTime : Time;
  getEndTime : Time;
  getConnections : list ConnectionInfo
}.

(** An entry of [ros::master::V_TopicInfo]. *)
Record TopicInfo : Type := mkTopicInfo {
  name : string;
  info_datatype : string
}.

(** ** The state of [MainWindow::Impl] *)

Record Impl : Type := mkImpl {
  recordAct : bool;          (* recordAct->isChecked() *)
  timer : bool;              (* timer->isActive() *)
  playTree : list QTreeWidgetItem;
  recordTree : list QTreeWidgetItem;
  beginTimeSpin : Q;
  endTimeSpin : Q;
  timeSpin : Q;
  timeSlider : QSlider;
  recordNode : string;
  playNode : string;
  filePath : string;
  begin_time : Time;
  end_time : Time;
  is_recording : bool;
  is_playing : bool;
  is_loop_checked : bool;
  is_clock_checked : bool;
  rate : Q;
  numTopics : Z;             (* the static local of on_timer_timeout *)
  started : list Process     (* QProcess::startDetached calls, oldest first *)
}.

Definition set_recordAct (v : bool) (s : Impl) : Impl :=
  mkImpl v (timer s) (playTree s) (recordTree s) (beginTimeSpin s)
    (endTimeSpin s) (timeSpin s) (timeSlider s) (recordNode s) (playNode s)
    (filePath s) (begin_time s) (end_time s) (is_recording s) (is_playing s)
    (is_loop_checked s) (is_clock_checked s) (rate s) (numTopics s)
    (started s).

Definition set_timer (v : bool) (s : Impl) : Impl :=
  mkImpl (recordAct s) v (playTree s) (recordTree s) (beginTimeSpin s)
    (endTimeSpin s) (timeSpin s) (timeSlider s) (recordNode s) (playNode s)
    (filePath s) (begin_time s) (end_time s) (is_recording s) (is_playing s)
    (is_loop_checked s) (is_clock_checked s) (rate s) (numTopics s)
    (started s).

Definition set_playTree (v : list QTreeWidgetItem) (s : Impl) : Impl :=
  mkImpl (recordAct s) (timer s) v (recordTree s) (beginTimeSpin s)
    (endTimeSpin s) (timeSpin s) (timeSlider s) (recordNode s) (playNode s)
    (filePath s) (begin_time s) (end_time s) (is_recording s) (is_playing s)
    (is_loop_checked s) (is_clock_checked s) (rate s) (numTopics s)
    (started s).

Definition set_recordTree (v : list QTreeWidgetItem) (s : Impl) : Impl :=
  mkImpl (recordAct s) (timer s) (playTree s) v (beginTimeSpin s)
    (endTimeSpin s) (timeSpin s) (timeSlider s) (recordNode s) (playNode s)
    (filePath s) (begin_time s) (end_time s) (is_recording s) (is_playing s)
    (is_loop_checked s) (is_clock_checked s) (rate s) (numTopics s)
    (started s).

Definition set_beginTimeSpin (v : Q) (s : Impl) : Impl :=
  mkImpl (recordAct s) (timer s) (playTree s) (recordTree s) v (endTimeSpin s)
    (timeSpin s) (timeSlider s) (recordNode s) (playNode s) (filePath s)
    (begin_time s) (end_time s) (is_recording s) (is_playing s)
    (is_loop_checked s) (is_clock_checked s) (rate s) (numTopics s)
    (started s).

Definition set_endTimeSpin (v : Q) (s : Impl) : Impl :=
  mkImpl (recordAct s) (timer s) (playTree s) (recordTree s) (beginTimeSpin s)
    v (timeSpin s) (timeSlider s) (recordNode s) (playNode s) (filePath s)
    (begin_time s) (end_time s) (is_recording s) (is_playing s)
    (is_loop_checked s) (is_clock_checked s) (rate s) (numTopics s)
    (started s).

Definition set_timeSpin (v : Q) (s : Impl) : Impl :=
  mkImpl (recordAct s) (timer s) (playTree s) (recordTree s) (beginTimeSpin s)
    (endTimeSpin s) v (timeSlider s) (recordNode s) (playNode s) (filePath s)
    (begin_time s) (end_time s) (is_recording s) (is_playing s)
    (is_loop_checked s) (is_clock_checked s) (rate s) (numTopics s)
    (started s).

Definition set_timeSlider (v : QSlider) (s : Impl) : Impl :=
  mkImpl (recordAct s) (timer s) (playTree s) (recordTree s) (beginTimeSpin s)
    (endTimeSpin s) (timeSpin s) v (recordNode s) (playNode s) (filePath s)
    (begin_time s) (end_time s) (is_recording s) (is_playing s)
    (is_loop_checked s) (is_clock_checked s) (rate s) (numTopics s)
    (started s).

Definition set_recordNode (v : string) (s : Impl) : Impl :=
  mkImpl (recordAct s) (timer s) (playTree s) (recordTree s) (beginTimeSpin s)
    (endTimeSpin s) (timeSpin s) (timeSlider s) v (playNode s) (filePath s)
    (begin_time s) (end_time s) (is_recording s) (is_playing s)
    (is_loop_checked s) (is_clock_checked s) (rate s) (numTopics s)
    (started s).

Definition set_playNode (v : string) (s : Impl) : Impl :=
  mkImpl (recordAct s) (timer s) (playTree s) (recordTree s) (beginTimeSpin s)
    (endTimeSpin s) (timeSpin s) (timeSlider s) (recordNode s) v (filePath s)
    (begin_time s) (end_time s) (is_recording s) (is_playing s)
    (is_loop_checked s) (is_clock_checked s) (rate s) (numTopics s)
    (started s).

Definition set_filePath (v : string) (s : Impl) : Impl :=
  mkImpl (recordAct s) (timer s) (playTree s) (recordTree s) (beginTimeSpin s)
    (endTimeSpin s) (timeSpin s) (timeSlider s) (recordNode s) (playNode s) v
    (begin_time s) (end_time s) (is_recording s) (is_playing s)
    (is_loop_checked s) (is_clock_checked s) (rate s) (numTopics s)
    (started s).

Definition set_begin_time (v : Time) (s : Impl) : Impl :=
  mkImpl (recordAct s) (timer s) (playTree s) (recordTree s) (beginTimeSpin s)
    (endTimeSpin s) (timeSpin s) (timeSlider s) (recordNode s) (playNode s)
    (filePath s) v (end_time s) (is_recording s) (is_playing s)
    (is_loop_checked s) (is_clock_checked s) (rate s) (numTopics s)
    (started s).

Definition set_end_time (v : Time) (s : Impl) : Impl :=
  mkImpl (recordAct s) (timer s) (playTree s) (recordTree s) (beginTimeSpin s)
    (endTimeSpin s) (timeSpin s) (timeSlider s) (recordNode s) (playNode s)
    (filePath s) (begin_time s) v (is_recording s) (is_playing s)
    (is_loop_checked s) (is_clock_checked s) (rate s) (numTopics s)
    (started s).

Definition set_is_recording (v : bool) (s : Impl) : Impl :=
  mkImpl (recordAct s) (timer s) (playTree s) (recordTree s) (beginTimeSpin s)
    (endTimeSpin s) (timeSpin s) (timeSlider s) (recordNode s) (playNode s)
    (filePath s) (begin_time s) (end_time s) v (is_playing s)
    (is_loop_checked s) (is_clock_checked s) (rate s) (numTopics s)
    (started s).

Definition set_is_playing (v : bool) (s : Impl) : Impl :=
  mkImpl (recordAct s) (timer s) (playTree s) (recordTree s) (beginTimeSpin s)
    (endTimeSpin s) (timeSpin s) (timeSlider s) (recordNode s) (playNode s)
    (filePath s) (begin_time s) (end_time s) (is_recording s) v
    (is_loop_checked s) (is_clock_checked s) (rate s) (numTopics s)
    (started s).

Definition set_is_loop_checked (v : bool) (s : Impl) : Impl :=
  mkImpl (recordAct s) (timer s) (playTree s) (recordTree s) (beginTimeSpin s)
    (endTimeSpin s) (timeSpin s) (timeSlider s) (recordNode s) (playNode s)
    (filePath s) (begin_time s) (end_time s) (is_recording s) (is_playing s) v
    (is_clock_checked s) (rate s) (numTopics s) (started s).

Definition set_is_clock_checked (v : bool) (s : Impl) : Impl :=
  mkImpl (recordAct s) (timer s) (playTree s) (recordTree s) (beginTimeSpin s)
    (endTimeSpin s) (timeSpin s) (timeSlider s) (recordNode s) (playNode s)
    (filePath s) (begin_time s) (end_time s) (is_recording s) (is_playing s)
    (is_loop_checked s) v (rate s) (numTopics s) (started s).

Definition set_rate (v : Q) (s : Impl) : Impl :=
  mkImpl (recordAct s) (timer s) (playTree s) (recordTree s) (beginTimeSpin s)
    (endTimeSpin s) (timeSpin s) (timeSlider s) (recordNode s) (playNode s)
    (filePath s) (begin_time s) (end_time s) (is_recording s) (is_playing s)
    (is_loop_checked s) (is_clock_checked s) v (numTopics s) (started s).

Definition set_numTopics (v : Z) (s : Impl) : Impl :=
  mkImpl (recordAct s) (timer s) (playTree s) (recordTree s) (beginTimeSpin s)
    (endTimeSpin s) (timeSpin s) (timeSlider s) (recordNode s) (playNode s)
    (filePath s) (begin_time s) (end_time s) (is_recording s) (is_playing s)
    (is_loop_checked s) (is_clock_checked s) (rate s) v (started s).

Definition set_started (v : list Process) (s : Impl) : Impl :=
  mkImpl (recordAct s) (timer s) (playTree s) (recordTree s) (beginTimeSpin s)
    (endTimeSpin s) (timeSpin s) (timeSlider s) (recordNode s) (playNode s)
    (filePath s) (begin_time s) (end_time s) (is_recording s) (is_playing s)
    (is_loop_checked s) (is_clock_checked s) (rate s) (numTopics s) v.

(** The state the constructor leaves: [Impl::Impl] and [createToolBars]. *)
Definition init : Impl :=
  mkImpl false true [] [] 0 0 0 (mkSlider 0 100 0) "" "" "" 0 0
    false false false true 1 0 [].

(** [QProcess::startDetached(program, arguments)]; its result is ignored. *)
Definition startDetached (prog : string) (args : list QArg) (st : Impl) : Impl :=
  set_started (started st << mkProcess prog args) st.

(** [QString::isEmpty]. *)
Definition isEmpty (s : string) : bool :=
  match s with
  | EmptyString => true
  | String _ _ => false
  end.

(** [topLevelItemCount()]. *)
Definition topLevelItemCount (tree : list QTreeWidgetItem) : Z :=
  Z.of_nat (List.length tree).

(** The loops of [record] and [play] over the items of a tree:
    [arguments << item->text(0)] for every checked item. *)
Fixpoint append_checked (items : list QTreeWidgetItem) (arguments : list QArg)
  : list QArg :=
  match items with
  | [] => arguments
  | item :: rest =>
      append_checked rest
        (if checkState item then arguments << Text (text item)
         else arguments)
  end.

(** ** Time spin box and time slider *)

Definition on_timeSpin_valueChanged (value : Q) (st : Impl) : outcome Impl :=
  let min := minimum (timeSlider st) in
  let max := maximum (timeSlider st) in
  let duration := (endTimeSpin st - beginTimeSpin st)%Q in
  let rate := ddiv (Finite value) (Finite duration) in
  span <- int_sub max min ;;
  v <- double_to_int (dmul (int_to_double span) rate) ;;
  (* signals of the slider are blocked around setValue *)
  Done (set_timeSlider (QSlider_setValue v (timeSlider st)) st).

Definition on_timeSlider_valueChanged (value : Z) (st : Impl) : outcome Impl :=
  let min := minimum (timeSlider st) in
  let max := maximum (timeSlider st) in
  span <- int_sub max min ;;
  let rate := ddiv (int_to_double value) (int_to_double span) in
  let duration := (endTimeSpin st - beginTimeSpin st)%Q in
  match dmul (Finite duration) rate with
  | Finite x =>
      (* signals of the spin box are blocked around setValue *)
      Done (set_timeSpin (QDoubleSpinBox_value x) st)
  | NonFinite => Undefined    (* a spin box given an infinity or a NaN *)
  end.

(** [timeSpin->setValue(x)] with signals enabled: [valueChanged] reaches
    [on_timeSpin_valueChanged] when the held value changes. *)
Definition timeSpin_setValue (x : Q) (st : Impl) : outcome Impl :=
  let v := QDoubleSpinBox_value x in
  if Qeq_bool v (timeSpin st) then Done st
  else on_timeSpin_valueChanged v (set_timeSpin v st).

Definition clockCallback (clock : Time) (st : Impl) : outcome Impl :=
  let time := toSec_diff clock (begin_time st) in
  timeSpin_setValue time st.

(** ** Play and stop *)

Definition play (now : N) (st : Impl) : outcome Impl :=
  if negb (isEmpty (filePath st)) then
    let arguments := [] << Text "play" << Text (filePath st) in
    let arguments := arguments << Text "-q" in
    let arguments :=
      if is_clock_checked st then arguments << Text "--clock"
      else arguments in
    let arguments := arguments << Text "-r" << Number (rate st) in
    let start_time := timeSpin st in
    let arguments := arguments << Text "-s" << Number start_time in
    let arguments :=
      if is_loop_checked st then arguments << Text "-l" else arguments in
    let arguments := arguments << Text "--topics" in
    let arguments := append_checked (playTree st) arguments in
    let st := set_playNode ("play_" ++ decimal now) st in
    let arguments := arguments << Text ("__name:=" ++ playNode st) in
    Done (set_is_playing true (startDetached "rosbag" arguments st))
  else
    Done (set_is_playing false st).

Definition stop (st : Impl) : outcome Impl :=
  if is_playing st then
    let arguments := [] << Text "kill" << Text ("/" ++ playNode st) in
    Done (set_is_playing false (startDetached "rosnode" arguments st))
  else
    Done st.

Definition clickPlay (now : N) (st : Impl) : outcome Impl :=
  st <- timeSpin_setValue 0 st ;;
  play now st.

Definition clickResume (now : N) (st : Impl) : outcome Impl :=
  if is_playing st then stop st else play now st.

(** ** Record *)

(** [recordAct->setChecked(b)]: the action changes its state and emits
    [toggled(b)], connected to [slot], only when [b] differs from it. *)
Definition recordAct_setChecked (slot : bool -> Impl -> outcome Impl)
  (b : bool) (st : Impl) : outcome Impl :=
  if Bool.eqb (recordAct st) b then Done st
  else slot b (set_recordAct b st).

(** [record(checked)], the slot of [recordAct]'s [toggled]. Unchecking the
    action inside the slot delivers [toggled(false)] to the slot again;
    [fuel] bounds that nesting. [now] is [ros::Time::now().toNSec()]. *)
Fixpoint record (fuel : nat) (now : N) (checked : bool) (st : Impl)
  : outcome Impl :=
  match fuel with
  | O => Fuel
  | S fuel' =>
      let count := topLevelItemCount (recordTree st) in
      st <- (if count =? 0 then recordAct_setChecked (record fuel' now) false st
             else Done st) ;;
      if checked then
        if 0 <? count then
          let arguments := [] << Text "record" in
          let arguments := append_checked (recordTree st) arguments in
          let st := set_recordNode ("record_" ++ decimal now) st in
          let arguments := arguments << Text ("__name:=" ++ recordNode st) in
          Done (set_is_recording true (startDetached "rosbag" arguments st))
        else
          Done (set_is_recording false st)
      else
        let st :=
          if is_recording st then
            let arguments := [] << Text "kill" << Text ("/" ++ recordNode st) in
            startDetached "rosnode" arguments st
          else st in
        Done (set_is_recording false st)
  end.

(** Two levels are all the nesting there is (lemma [record_fuel]). *)
Definition record_slot : N -> bool -> Impl -> outcome Impl := record 2.

Definition clickStop (now : N) (st : Impl) : outcome Impl :=
  st <- (if is_recording st then recordAct_setChecked (record_slot now) false st
         else Done st) ;;
  stop st.

(** ** Loading and saving a bag *)

(** [while(playTree->topLevelItemCount() > 0) playTree->takeTopLevelItem(0)]. *)
Fixpoint take_all (tree : list QTreeWidgetItem) : list QTreeWidgetItem :=
  match tree with
  | [] => tree
  | _ :: rest => take_all rest
  end.

(** The loop of [loadFile] over the connections: a checked item each,
    constructed with the tree as parent, which appends it. *)
Fixpoint add_connections (connections : list ConnectionInfo)
  (tree : list QTreeWidgetItem) : list QTreeWidgetItem :=
  match connections with
  | [] => tree
  | info :: rest =>
      let topicName := topic info in
      add_connections rest (tree << mkItem topicName true)
  end.

(** [loadFile(fileName)]; [bag] is what opening the file gives, [None] when
    [rosbag::Bag] throws. *)
Definition loadFile (fileName : string) (bag : option View) (st : Impl)
  : outcome Impl :=
  let st := set_filePath fileName st in
  let st := set_playTree (take_all (playTree st)) st in
  match bag with
  | None => Throws
  | Some view =>
      let st := set_begin_time (getBeginTime view) st in
      let st := set_end_time (getEndTime view) st in
      let duration := toSec_diff (end_time st) (begin_time st) in
      let st := set_beginTimeSpin (QDoubleSpinBox_value 0) st in
      let st := set_endTimeSpin (QDoubleSpinBox_value duration) st in
      let connections := getConnections view in
      Done (set_playTree (add_connections connections (playTree st)) st)
  end.

(** The loop of [saveFile]: [option += QString("'%1' or ").arg(text)] for
    every checked item. *)
Fixpoint append_clauses (items : list QTreeWidgetItem) (option : string)
  : string :=
  match items with
  | [] => option
  | item :: rest =>
      append_clauses rest
        (if checkState item then option ++ ("'" ++ text item ++ "' or ")
         else option)
  end.

(** The filter expression [saveFile] hands to [rosbag filter]. *)
Definition filter_option (tree : list QTreeWidgetItem) : string :=
  let option := "topic == " in
  let option := append_clauses tree option in
  chop 4 option.

Definition saveFile (fileName : string) (st : Impl) : outcome Impl :=
  let count := topLevelItemCount (playTree st) in
  if 0 <? count then
    let arguments := [] << Text "filter" << Text (filePath st) << Text fileName in
    let arguments := arguments << Text (filter_option (playTree st)) in
    Done (startDetached "rosbag" arguments st)
  else
    Done st.

(** [open()]; [fileName] is what the file dialog returns (empty when it is
    cancelled). *)
Definition open (fileName : string) (bag : option View) (st : Impl)
  : outcome Impl :=
  st <- (if is_playing st then stop st else Done st) ;;
  let st := set_timer false st in
  if isEmpty fileName then
    Done st
  else
    st <- loadFile fileName bag st ;;
    Done (set_timer true st).

Definition save (fileName : string) (st : Impl) : outcome Impl :=
  st <- (if is_playing st then stop st else Done st) ;;
  let st := set_timer false st in
  if isEmpty fileName then
    Done st
  else
    st <- saveFile fileName st ;;
    Done (set_timer true st).

(** ** The states [open] passes through *)

(** The states after each [playTree->takeTopLevelItem(0)] of the loop
    [while(playTree->topLevelItemCount() > 0)], oldest first; [tree] is
    the play tree of [st]. *)
Fixpoint take_states (tree : list QTreeWidgetItem) (st : Impl) : list Impl :=
  match tree with
  | [] => []
  | _ :: rest =>
      let st := set_playTree rest st in
      st :: take_states rest st
  end.

(** The states after each [new QTreeWidgetItem(playTree)] of the loop of
    [loadFile] over the connections, oldest first. *)
Fixpoint add_states (connections : list ConnectionInfo) (st : Impl)
  : list Impl :=
  match connections with
  | [] => []
  | info :: rest =>
      let topicName := topic info in
      let st := set_playTree (playTree st << mkItem topicName true) st in
      st :: add_states rest st
  end.

(** The states [loadFile(fileName)] passes through, one after each
    statement in the order of the source, up to its return or to the
    exception of [rosbag::Bag]. *)
Definition loadFile_states (fileName : string) (bag : option View) (st : Impl)
  : list Impl :=
  let st1 := set_filePath fileName st in
  let taken := take_states (playTree st1) st1 in
  let st2 := last taken st1 in
  match bag with
  | None => st1 :: taken
  | Some view =>
      let st3 := set_begin_time (getBeginTime view) st2 in
      let st4 := set_end_time (getEndTime view) st3 in
      let duration := toSec_diff (end_time st4) (begin_time st4) in
      let st5 := set_beginTimeSpin (QDoubleSpinBox_value 0) st4 in
      let st6 := set_endTimeSpin (QDoubleSpinBox_value duration) st5 in
      let connections := getConnections view in
      (st1 :: taken) ++ [st3; st4; st5; st6] ++ add_states connections st6
  end.


(** ** Configuration and bulk selection *)

(** What the user leaves in an accepted [PlayerConfigDialog]. *)
Record PlayerConfig : Type := mkConfig {
  isLoopChecked : bool;
  isClockChecked : bool;
  dialog_rate : Q
}.

(** [config()]; [accepted] is [None] when the dialog is rejected. *)
Definition config (accepted : option PlayerConfig) (st : Impl) : outcome Impl :=
  match accepted with
  | Some dialog =>
      let st := set_is_loop_checked (isLoopChecked dialog) st in
      let st := set_is_clock_checked (isClockChecked dialog) st in
      Done (set_rate (dialog_rate dialog) st)
  | None => Done st
  end.

Definition setCheckState (checked : bool) (item : QTreeWidgetItem)
  : QTreeWidgetItem :=
  mkItem (text item) checked.

Definition checkRecord (checked : bool) (st : Impl) : outcome Impl :=
  Done (set_recordTree (map (setCheckState checked) (recordTree st)) st).

Definition checkPlay (checked : bool) (st : Impl) : outcome Impl :=
  Done (set_playTree (map (setCheckState checked) (playTree st)) st).

(** ** The topic poll *)

(** Conversions between [size_t] (64 bits) and [int]. *)
Definition to_size_t (z : Z) : Z := z mod 2 ^ 64.
Definition to_int (z : Z) : Z := (z + 2 ^ 31) mod 2 ^ 32 - 2 ^ 31.

(** The loop of [on_timer_timeout] over the topics. *)
Fixpoint add_topics (topics : list TopicInfo) (tree : list QTreeWidgetItem)
  : list QTreeWidgetItem :=
  match topics with
  | [] => tree
  | info :: rest => add_topics rest (tree << mkItem (name info) true)
  end.

(** [on_timer_timeout()]; [getTopics] is [None] when
    [ros::master::getTopics] returns false. *)
Definition on_timer_timeout (getTopics : option (list TopicInfo)) (st : Impl)
  : outcome Impl :=
  match getTopics with
  | Some topics =>
      let size := Z.of_nat (List.length topics) in
      if negb (size =? to_size_t (numTopics st)) then
        let st := set_numTopics (to_int size) st in
        let st := set_recordTree (take_all (recordTree st)) st in
        Done (set_recordTree (add_topics topics (recordTree st)) st)
      else
        Done st
  | None => Done st
  end.

(** ** The event loop *)

(** What reaches the window: triggered actions with what their dialogs
    return and the clock reads, user input on the widgets, the timer and
    the clock subscription. *)
Inductive Event : Type :=
| OpenTriggered (fileName : string) (bag : option View)
| SaveTriggered (fileName : string)
| RecordTriggered (now : N)
| PlayTriggered (now : N)
| ResumeTriggered (now : N)
| StopTriggered (now : N)
| ConfigTriggered (accepted : option PlayerConfig)
| CheckPlayTriggered (checked : bool)
| CheckRecordTriggered (checked : bool)
| PlayItemClicked (i : nat)
| RecordItemClicked (i : nat)
| TimerTimeout (getTopics : option (list TopicInfo))
| TimeSpinEdited (x : Q)
| TimeSliderMoved (v : Z)
| ClockReceived (clock : Time).

(** The user clicking the check box of item [i]. *)
Fixpoint click_item (i : nat) (tree : list QTreeWidgetItem)
  : list QTreeWidgetItem :=
  match tree, i with
  | [], _ => []
  | item :: rest, O => setCheckState (negb (checkState item)) item :: rest
  | item :: rest, S j => item :: click_item j rest
  end.

(** Which events can occur: the timer fires only while active, the slider
    is moved inside its range. *)
Definition enabled (ev : Event) (st : Impl) : bool :=
  match ev with
  | TimerTimeout _ => timer st
  | TimeSliderMoved v =>
      (minimum (timeSlider st) <=? v) && (v <=? maximum (timeSlider st))
  | ClockReceived clock => 0 <=? clock
  | _ => true
  end.

Definition handle (ev : Event) (st : Impl) : outcome Impl :=
  match ev with
  | OpenTriggered fileName bag => open fileName bag st
  | SaveTriggered fileName => save fileName st
  | RecordTriggered now =>
      (* a click on the checkable action toggles it *)
      recordAct_setChecked (record_slot now) (negb (recordAct st)) st
  | PlayTriggered now => clickPlay now st
  | ResumeTriggered now => clickResume now st
  | StopTriggered now => clickStop now st
  | ConfigTriggered accepted => config accepted st
  | CheckPlayTriggered checked => checkPlay checked st
  | CheckRecordTriggered checked => checkRecord checked st
  | PlayItemClicked i => Done (set_playTree (click_item i (playTree st)) st)
  | RecordItemClicked i =>
      Done (set_recordTree (click_item i (recordTree st)) st)
  | TimerTimeout getTopics => on_timer_timeout getTopics st
  | TimeSpinEdited x => timeSpin_setValue x st
  | TimeSliderMoved v =>
      if v =? value (timeSlider st) then Done st
      else
        on_timeSlider_valueChanged v
          (set_timeSlider (QSlider_setValue v (timeSlider st)) st)
  | ClockReceived clock => clockCallback clock st
  end.

Inductive reachable : Impl -> Prop :=
| reachable_init : reachable init
| reachable_step (ev : Event) (st st' : Impl) :
    reachable st ->
    enabled ev st = true ->
    handle ev st = Done st' ->
    reachable st'.

(** Running a list of events from a state: [None] when one of them cannot
    occur or its slot does not return. *)
Fixpoint run (evs : list Event) (st : Impl) : option Impl :=
  match evs with
  | [] => Some st
  | ev :: rest =>
      if enabled ev st then
        match handle ev st with
        | Done st' => run rest st'
        | _ => None
        end
      else None
  end.

(** * What the properties speak of *)

(** ** Selections and processes *)

(** No item of a tree is checked. *)
Definition none_checked (tree : list QTreeWidgetItem) : bool :=
  forallb (fun item => negb (checkState item)) tree.

(** Every item of a tree is checked. *)
Definition all_checked (tree : list QTreeWidgetItem) : bool :=
  forallb checkState tree.

(** The [rosbag] processes (record, play, filter) started so far; the
    others are [rosnode kill]. *)
Definition rosbag_started (st : Impl) : list Process :=
  filter (fun p => String.eqb (program p) "rosbag") (started st).

(** The [rosnode kill] of a node. *)
Definition kill (node : string) : Process :=
  mkProcess "rosnode" [Text "kill"; Text ("/" ++ node)].

(** The names of the checked items of a tree, in their order. *)
Definition checked_names (tree : list QTreeWidgetItem) : list string :=
  map text (filter checkState tree).

(** What the loop of [saveFile] appends for a list of checked names. *)
Fixpoint clauses (names : list string) : string :=
  match names with
  | [] => ""
  | n :: rest => ("'" ++ n ++ "' or ") ++ clauses rest
  end.

(** Quoted names joined by [ or ]. *)
Fixpoint or_chain (names : list string) : string :=
  match names with
  | [] => ""
  | [n] => "'" ++ n ++ "'"
  | n :: rest => "'" ++ n ++ "' or " ++ or_chain rest
  end.

(** [record(true)] refused: the slot returns with the recording flag off
    and without having started a [rosbag] process. *)
Definition record_refused (now : N) (st : Impl) : Prop :=
  exists st',
    record_slot now true st = Done st' /\
    is_recording st' = false /\
    rosbag_started st' = rosbag_started st.

(** [play()] refused: the slot returns without having started a process. *)
Definition play_refused (now : N) (st : Impl) : Prop :=
  exists st', play now st = Done st' /\ started st' = started st.

(** [open()] resets the position: it returns with the time spin box at 0. *)
Definition open_resets_position (fileName : string) (view : View) (st : Impl)
  : Prop :=
  exists st', open fileName (Some view) st = Done st' /\ (timeSpin st' == 0)%Q.

(** ** Time and slider units *)

(** The duration the two handlers compute. *)
Definition duration_of (st : Impl) : Q :=
  (endTimeSpin st - beginTimeSpin st)%Q.

(** [on_timeSpin_valueChanged(e)] and then [on_timeSlider_valueChanged] at
    the value the slider took: the time the spin box holds afterwards. *)
Definition round_trip (e : Q) (st : Impl) : option Q :=
  match on_timeSpin_valueChanged e st with
  | Done st1 =>
      match on_timeSlider_valueChanged (value (timeSlider st1)) st1 with
      | Done st2 => Some (timeSpin st2)
      | _ => None
      end
  | _ => None
  end.

(** The time one unit of the slider stands for. *)
Definition tick (st : Impl) : Q :=
  (duration_of st
   / inject_Z (maximum (timeSlider st) - minimum (timeSlider st)))%Q.

(** The round trip returns and ends within [bound] of [e]. *)
Definition recovers_within (bound e : Q) (st : Impl) : Prop :=
  exists e', round_trip e st = Some e' /\ (Qabs (e' - e) <= bound)%Q.

(** ** Flags and node names *)

(** A flag that is on has its node name set. *)
Definition token_set (flag : bool) (node : string) : Prop :=
  flag = true -> node <> "".

Definition tokens_inv (st : Impl) : Prop :=
  token_set (is_playing st) (playNode st) /\
  token_set (is_recording st) (recordNode st).

(** A flag is on exactly when its node name is set. *)
Definition flags_iff_tokens (st : Impl) : Prop :=
  (is_playing st = true <-> playNode st <> "") /\
  (is_recording st = true <-> recordNode st <> "").

(** What holds between events: besides [tokens_inv], the record action is
    checked exactly while recording. *)
Definition session_inv (st : Impl) : Prop :=
  tokens_inv st /\ recordAct st = is_recording st.

(** The fields [session_inv] reads. *)
Definition session (st : Impl) : bool * bool * string * bool * string :=
  (recordAct st, is_recording st, recordNode st, is_playing st, playNode st).

(** ** Windows and bags used as examples *)

(** The state a list of events leads to from the constructed window, when
    it leads to one. *)
Definition after (evs : list Event) : Impl :=
  match run evs init with
  | Some st => st
  | None => init
  end.

(** A bag of 10 s with one topic. *)
Definition ten_seconds : View :=
  mkView 0 10000000000 [mkConnection "/a" "std_msgs/String"].


(** A bag of 0.70 s with one topic. *)
Definition short_bag : View :=
  mkView 0 700000000 [mkConnection "/a" "std_msgs/String"].

(** A bag of 10 s with three topics. *)
Definition three_topics : View :=
  mkView 0 10000000000
    [mkConnection "/a" "std_msgs/String"; mkConnection "/b" "std_msgs/String";
     mkConnection "/c" "std_msgs/String"].

(** The topic poll finds one topic and the user unchecks it. *)
Definition to_one_unchecked_record_topic : list Event :=
  [TimerTimeout (Some [mkTopicInfo "/a" "std_msgs/String"]);
   CheckRecordTriggered false].

Definition one_unchecked_record_topic : Impl :=
  Eval vm_compute in after to_one_unchecked_record_topic.

(** A bag of three topics is opened and the third topic unchecked. *)
Definition to_two_of_three_selected : list Event :=
  [OpenTriggered "/in.bag" (Some three_topics); PlayItemClicked 2].

Definition two_of_three_selected : Impl :=
  Eval vm_compute in after to_two_of_three_selected.

(** A bag of one topic is opened and the topic unchecked. *)
Definition to_loaded_none_selected : list Event :=
  [OpenTriggered "/in.bag" (Some ten_seconds); CheckPlayTriggered false].

Definition loaded_none_selected : Impl :=
  Eval vm_compute in after to_loaded_none_selected.

(** The bag of 0.70 s is opened. *)
Definition to_short_bag_loaded : list Event :=
  [OpenTriggered "/s.bag" (Some short_bag)].

Definition short_bag_loaded : Impl :=
  Eval vm_compute in after to_short_bag_loaded.

(** A window whose slider had the range 10 .. 110, with a bag of 1 s; the
    program itself only ever sets the range 0 .. 100. *)
Definition offset_range : Impl :=
  set_timeSlider (mkSlider 10 110 10) (set_endTimeSpin 1 init).

(** A bag is opened and the position set to 5 s. *)
Definition to_position_five : list Event :=
  [OpenTriggered "/a.bag" (Some ten_seconds); TimeSpinEdited 5].

Definition position_five : Impl :=
  Eval vm_compute in after to_position_five.

(** A bag is opened, played and stopped. *)
Definition to_played_and_stopped : list Event :=
  [OpenTriggered "/a.bag" (Some ten_seconds); PlayTriggered 3; StopTriggered 4].

Definition played_and_stopped : Impl :=
  Eval vm_compute in after to_played_and_stopped.

(** The poll finds a topic, recording is switched on, a bag is opened and
    played. *)
Definition to_both_running : list Event :=
  [TimerTimeout (Some [mkTopicInfo "/rosout" "rosgraph_msgs/Log"]);
   RecordTriggered 1;
   OpenTriggered "/a.bag" (Some ten_seconds);
   PlayTriggered 2].

Definition both_running : Impl :=
  Eval vm_compute in after to_both_running.

(** ** Tactics *)

(** Case analysis on a state, field by field. *)
Ltac destruct_Impl st :=
  let ra := fresh "ra" in let tm := fresh "tm" in
  let ptree := fresh "ptree" in let rtree := fresh "rtree" in
  let bs := fresh "bs" in let es := fresh "es" in let ts := fresh "ts" in
  let sl := fresh "sl" in let rn := fresh "rn" in let pn := fresh "pn" in
  let fp := fresh "fp" in let bt := fresh "bt" in let et := fresh "et" in
  let ir := fresh "ir" in let ip := fresh "ip" in let lc := fresh "lc" in
  let cc := fresh "cc" in let rt := fresh "rt" in let nt := fresh "nt" in
  let sd := fresh "sd" in
  destruct st as [ra tm ptree rtree bs es ts sl rn pn fp bt et ir ip lc cc rt nt sd].

(** Case analysis on every test a hypothesis branches on. *)
Ltac split_cases H :=
  repeat match type of H with
    | context [if ?b then _ else _] => destruct b eqn:?
    | context [match ?x with _ => _ end] => destruct x eqn:?
    end.


(** * More of the window *)

(** ** The topic poll *)

(** The static count of [on_timer_timeout] is the number of record items,
    as an [int]. *)
Definition poll_inv (st : Impl) : Prop :=
  numTopics st = to_int (topLevelItemCount (recordTree st)).

(** The fields [poll_inv] reads. *)
Definition poll_fields (st : Impl) : Z * nat :=
  (numTopics st, List.length (recordTree st)).

(** The items the topic poll makes of the topics of the master. *)
Definition polled_items (topics : list TopicInfo) : list QTreeWidgetItem :=
  map (fun info => mkItem (name info) true) topics.

(** ** Spin boxes and slider *)

(** A value a spin box can hold. *)
Definition spin_value (q : Q) : Prop := exists x, q = QDoubleSpinBox_value x.

(** The slider has the range 0 .. 100 and a value in it; the begin spin
    box is at 0; the other two hold spin box values. *)
Definition widgets_inv (st : Impl) : Prop :=
  minimum (timeSlider st) = 0 /\
  maximum (timeSlider st) = 100 /\
  0 <= value (timeSlider st) <= 100 /\
  beginTimeSpin st = 0%Q /\
  spin_value (endTimeSpin st) /\
  spin_value (timeSpin st).

(** ** Processes *)

(** The arguments of [rosbag play] in front of the topics. *)
Definition play_options (st : Impl) : list QArg :=
  ([Text "play"; Text (filePath st); Text "-q"]
   ++ (if is_clock_checked st then [Text "--clock"] else [])
   ++ [Text "-r"; Number (rate st); Text "-s"; Number (timeSpin st)]
   ++ (if is_loop_checked st then [Text "-l"] else [])
   ++ [Text "--topics"])%list.

(** The [rosbag play] process of a state, named after the clock. *)
Definition play_process (now : N) (st : Impl) : Process :=
  mkProcess "rosbag"
    (play_options st ++ map Text (checked_names (playTree st))
     ++ [Text ("__name:=play_" ++ decimal now)])%list.

(** The [rosbag record] process of a state, named after the clock. *)
Definition record_process (now : N) (st : Impl) : Process :=
  mkProcess "rosbag"
    ([Text "record"] ++ map Text (checked_names (recordTree st))
     ++ [Text ("__name:=record_" ++ decimal now)])%list.

(** The [rosbag filter] process [saveFile] starts. *)
Definition filter_process (fileName : string) (st : Impl) : Process :=
  mkProcess "rosbag"
    [Text "filter"; Text (filePath st); Text fileName;
     Text (filter_option (playTree st))].

(** ** Events *)

(** Opening a file that cannot be read is the one event whose slot
    throws. *)
Definition readable (ev : Event) : bool :=
  match ev with
  | OpenTriggered fileName None => isEmpty fileName
  | _ => true
  end.

(** The events that can change the record session and those that can
    change the play session. *)
Definition touches_record (ev : Event) : bool :=
  match ev with
  | RecordTriggered _ | StopTriggered _ => true
  | _ => false
  end.

Definition touches_play (ev : Event) : bool :=
  match ev with
  | OpenTriggered _ _ | SaveTriggered _ | PlayTriggered _
  | ResumeTriggered _ | StopTriggered _ => true
  | _ => false
  end.

(** A file is loaded whenever the window plays or shows play topics. *)
Definition file_inv (st : Impl) : Prop :=
  (is_playing st = true -> isEmpty (filePath st) = false) /\
  (playTree st <> [] -> isEmpty (filePath st) = false).

(** ** Kills and the nodes they name *)

(** A [rosbag] process given the node name [x]. *)
Definition named (x : string) (p : Process) : Prop :=
  program p = "rosbag" /\
  exists args, arguments p = args << Text ("__name:=" ++ x).

(** A node of name [x] was started among the processes [l]. *)
Definition node_started (x : string) (l : list Process) : Prop :=
  exists p, In p l /\ named x p.

(** Every kill in a list of processes comes after the start of a node of
    the name it kills. *)
Definition kills_follow_starts (l : list Process) : Prop :=
  forall pre x post,
    l = (pre ++ kill x :: post)%list -> node_started x pre.

(** Besides, the node of a session that is on was started. *)
Definition trace_inv (st : Impl) : Prop :=
  kills_follow_starts (started st) /\
  (is_playing st = true -> node_started (playNode st) (started st)) /\
  (is_recording st = true -> node_started (recordNode st) (started st)).

(** The fields [trace_inv] reads. *)
Definition trace_fields (st : Impl)
  : list Process * bool * string * bool * string :=
  (started st, is_playing st, playNode st, is_recording st, recordNode st).

(** ** More examples *)

(** A poll result of one topic that is not the one in the record tree. *)
Definition other_topic : list TopicInfo :=
  [mkTopicInfo "/tf" "tf2_msgs/TFMessage"].

(** A poll result of two topics. *)
Definition two_topics : list TopicInfo :=
  [mkTopicInfo "/rosout" "rosgraph_msgs/Log";
   mkTopicInfo "/tf" "tf2_msgs/TFMessage"].

(** A bag whose begin and end times are the same. *)
Definition instant_bag : View :=
  mkView 1000000000 1000000000 [mkConnection "/a" "std_msgs/String"].

(** A bag of 10 s is opened, the position set to 5 s and the bag without
    duration opened. *)
Definition to_position_without_duration : list Event :=
  [OpenTriggered "/a.bag" (Some ten_seconds); TimeSpinEdited 5;
   OpenTriggered "/i.bag" (Some instant_bag)].

Definition position_without_duration : Impl :=
  Eval vm_compute in after to_position_without_duration.

(** The window playing and recording after the play action was triggered
    once more. *)
Definition played_twice : Impl :=
  Eval vm_compute in
    match clickPlay 5 both_running with
    | Done st => st
    | _ => init
    end.

(** A configuration with loop on, clock off and half rate. *)
Definition slow_loop : PlayerConfig := mkConfig true false (1 # 2).

(** ** More tactics *)

(** Unfolds the slots of an event down to the tests on the state. *)
Ltac unfold_slots H :=
  cbn [handle] in H;
  unfold open, save, clickPlay, clickResume, clickStop, clockCallback,
    config, checkPlay, checkRecord, timeSpin_setValue,
    recordAct_setChecked, record_slot in H;
  cbn [record] in H;
  unfold recordAct_setChecked, loadFile, saveFile, play, stop,
    on_timeSpin_valueChanged, on_timeSlider_valueChanged, on_timer_timeout,
    int_sub, double_to_int, bind in H.

(** Case analysis on every test a hypothesis branches on, innermost
    first. *)
Ltac split_inner H :=
  repeat match type of H with
    | context [match ?x with _ => _ end] =>
        lazymatch x with
        | context [match _ with _ => _ end] => fail
        | _ => destruct x eqn:?
        end
    end.

(** Reduces the projections of updated states. *)
Ltac fields :=
  cbn [recordAct timer playTree recordTree beginTimeSpin endTimeSpin timeSpin
       timeSlider recordNode playNode filePath begin_time end_time
       is_recording is_playing is_loop_checked is_clock_checked rate
       numTopics started
       set_recordAct set_timer set_playTree set_recordTree set_beginTimeSpin
       set_endTimeSpin set_timeSpin set_timeSlider set_recordNode
       set_playNode set_filePath set_begin_time set_end_time
       set_is_recording set_is_playing set_is_loop_checked
       set_is_clock_checked set_rate set_numTopics set_started
       startDetached minimum maximum value QSlider_setValue].

Ltac fields_in H :=
  cbn [recordAct timer playTree recordTree beginTimeSpin endTimeSpin timeSpin
       timeSlider recordNode playNode filePath begin_time end_time
       is_recording is_playing is_loop_checked is_clock_checked rate
       numTopics started
       set_recordAct set_timer set_playTree set_recordTree set_beginTimeSpin
       set_endTimeSpin set_timeSpin set_timeSlider set_recordNode
       set_playNode set_filePath set_begin_time set_end_time
       set_is_recording set_is_playing set_is_loop_checked
       set_is_clock_checked set_rate set_numTopics set_started
       startDetached minimum maximum value QSlider_setValue] in H.

(** * Properties *)

(** ** Item loops *)

Lemma append_checked_app (items : list QTreeWidgetItem) (arguments : list QArg) :
  append_checked items arguments
  = (arguments ++ map (fun item => Text (text item)) (filter checkState items))%list.
Proof.
  revert arguments.
  induction items as [|item rest IH]; intros arguments; simpl.
  - now rewrite app_nil_r.
  - rewrite IH. destruct (checkState item); simpl.
    + now rewrite <- app_assoc.
    + reflexivity.
Qed.

Lemma filter_none_checked (items : list QTreeWidgetItem) :
  none_checked items = true -> filter checkState items = [].
Proof.
  induction items as [|item rest IH]; simpl; intros H.
  - reflexivity.
  - apply andb_true_iff in H. destruct H as [H1 H2].
    destruct (checkState item); [discriminate | auto].
Qed.

Lemma append_checked_none (items : list QTreeWidgetItem) (arguments : list QArg) :
  none_checked items = true -> append_checked items arguments = arguments.
Proof.
  intros H. rewrite append_checked_app, (filter_none_checked _ H).
  apply app_nil_r.
Qed.

Lemma take_all_nil (tree : list QTreeWidgetItem) : take_all tree = [].
Proof. induction tree; simpl; auto. Qed.

Lemma add_connections_app (connections : list ConnectionInfo)
  (tree : list QTreeWidgetItem) :
  add_connections connections tree
  = (tree ++ map (fun info => mkItem (topic info) true) connections)%list.
Proof.
  revert tree.
  induction connections as [|info rest IH]; intros tree; simpl.
  - now rewrite app_nil_r.
  - rewrite IH. now rewrite <- app_assoc.
Qed.

Lemma selection_of_connections (connections : list ConnectionInfo) :
  let tree := map (fun info => mkItem (topic info) true) connections in
  map text tree = map topic connections /\ all_checked tree = true.
Proof.
  induction connections as [|info rest [IH1 IH2]]; simpl; split; auto.
  f_equal. exact IH1.
Qed.

(** ** Record *)

(** More fuel than two changes nothing: the nesting of [toggled]
    deliveries inside [record] is at most two deep. *)
Lemma record_fuel (n : nat) (now : N) (checked : bool) (st : Impl) :
  record (S (S n)) now checked st = record 2 now checked st.
Proof.
  destruct_Impl st.
  destruct rtree, ra, ir, checked; reflexivity.
Qed.

(** The slot always returns. *)
Lemma record_slot_returns (now : N) (checked : bool) (st : Impl) :
  exists st', record_slot now checked st = Done st'.
Proof.
  unfold record_slot. destruct_Impl st.
  destruct rtree, ra, ir, checked; eexists; reflexivity.
Qed.

(** C1, as stated, fails: with a record list that is not empty and whose
    only entry is unchecked, checking the record action runs [record(true)],
    which starts [rosbag record] with no topic and sets the recording
    flag. *)
Lemma record_all_unchecked_not_refused :
  run to_one_unchecked_record_topic init = Some one_unchecked_record_topic /\
  none_checked (recordTree one_unchecked_record_topic) = true /\
  is_recording one_unchecked_record_topic = false /\
  handle (RecordTriggered 5) one_unchecked_record_topic
  = record_slot 5 true (set_recordAct true one_unchecked_record_topic) /\
  record_slot 5 true (set_recordAct true one_unchecked_record_topic)
  = Done (set_is_recording true
            (startDetached "rosbag" [Text "record"; Text "__name:=record_5"]
               (set_recordNode "record_5"
                  (set_recordAct true one_unchecked_record_topic)))) /\
  ~ record_refused 5 (set_recordAct true one_unchecked_record_topic).
Proof.
  repeat split.
  intros [st' [Hrun [Hflag _]]].
  vm_compute in Hrun. inversion Hrun; subst st'. discriminate Hflag.
Qed.

(** C1, amended: [record(true)] with an empty record list (zero items) is
    refused: the recording flag is off afterwards and no [rosbag] process
    has been started; the record action is unchecked again, and nothing at
    all has been started when the window was not recording. *)
Theorem record_empty_list_refused (now : N) (st : Impl) :
  recordTree st = [] ->
  record_refused now st /\
  (forall st',
      record_slot now true st = Done st' ->
      recordAct st' = false /\
      (is_recording st = false -> started st' = started st)).
Proof.
  intros Hnil. destruct_Impl st. simpl in Hnil. subst rtree.
  split.
  - unfold record_refused, record_slot, rosbag_started.
    destruct ra, ir; eexists; cbn; repeat split.
    cbn. rewrite filter_app. simpl. apply app_nil_r.
  - intros st' Hrun. unfold record_slot in Hrun.
    destruct ra, ir; cbn in Hrun; inversion Hrun; cbn;
      split; try reflexivity; intros Hoff; try discriminate Hoff;
      reflexivity.
Qed.

Lemma record_empty_list_refused_witness :
  recordTree (set_recordAct true init) = [] /\
  record_refused 5 (set_recordAct true init) /\
  (forall st',
      record_slot 5 true (set_recordAct true init) = Done st' ->
      recordAct st' = false /\
      (is_recording (set_recordAct true init) = false ->
       started st' = started (set_recordAct true init))).
Proof.
  split; [reflexivity|].
  apply (record_empty_list_refused 5 (set_recordAct true init)).
  reflexivity.
Defined.

(** ** Save *)

(** *** Strings *)

Lemma append_assoc (a b c : string) : (a ++ b) ++ c = a ++ (b ++ c).
Proof. induction a as [|ch a IH]; simpl; [reflexivity | now rewrite IH]. Qed.

Lemma length_append (a b : string) :
  String.length (a ++ b) = (String.length a + String.length b)%nat.
Proof. induction a as [|ch a IH]; simpl; [reflexivity | now rewrite IH]. Qed.

Lemma substring_prefix (a b : string) :
  substring 0 (String.length a) (a ++ b) = a.
Proof.
  induction a as [|ch a IH]; simpl.
  - destruct b; reflexivity.
  - now rewrite IH.
Qed.

Lemma chop_or (s : string) : chop 4 (s ++ " or ") = s.
Proof.
  unfold chop. rewrite length_append. simpl String.length.
  replace (String.length s + 4 - 4)%nat with (String.length s) by lia.
  apply substring_prefix.
Qed.

Lemma append_clauses_app (items : list QTreeWidgetItem) (option : string) :
  append_clauses items option = option ++ clauses (checked_names items).
Proof.
  revert option. unfold checked_names.
  induction items as [|item rest IH]; intros option; simpl.
  - induction option; simpl; congruence.
  - rewrite IH. destruct (checkState item); [|reflexivity].
    rewrite append_assoc. reflexivity.
Qed.

Lemma clauses_or_chain (names : list string) :
  names <> [] -> clauses names = or_chain names ++ " or ".
Proof.
  induction names as [|n rest IH]; intros Hne; [congruence|].
  destruct rest as [|m rest].
  - simpl. now rewrite !append_assoc.
  - change (clauses (n :: m :: rest))
      with (("'" ++ n ++ "' or ") ++ clauses (m :: rest)).
    change (or_chain (n :: m :: rest))
      with ("'" ++ n ++ "' or " ++ or_chain (m :: rest)).
    rewrite IH by discriminate.
    rewrite !append_assoc. reflexivity.
Qed.

(** What [saveFile] hands to [rosbag filter] when some topic is checked. *)
Lemma filter_option_or_chain (tree : list QTreeWidgetItem) :
  checked_names tree <> [] ->
  filter_option tree = "topic == " ++ or_chain (checked_names tree).
Proof.
  intros Hne. unfold filter_option.
  rewrite append_clauses_app, (clauses_or_chain _ Hne).
  rewrite <- append_assoc. apply chop_or.
Qed.

(** With one topic checked the expression is the comparison C2 states. *)
Lemma filter_option_one (tree : list QTreeWidgetItem) (n : string) :
  checked_names tree = [n] ->
  filter_option tree = "topic == '" ++ n ++ "'".
Proof.
  intros H. rewrite filter_option_or_chain by (rewrite H; discriminate).
  rewrite H. reflexivity.
Qed.

(** C2 at its own example, a bag with [/a], [/b] and [/c] opened and [/c]
    unchecked: the source writes [topic == ] once, in front of the loop, so
    the clause of the second topic has no comparison. *)
Theorem saveFile_two_selected :
  run to_two_of_three_selected init = Some two_of_three_selected /\
  checked_names (playTree two_of_three_selected) = ["/a"; "/b"] /\
  saveFile "/out.bag" two_of_three_selected
  = Done (startDetached "rosbag"
            [Text "filter"; Text "/in.bag"; Text "/out.bag";
             Text "topic == '/a' or '/b'"] two_of_three_selected) /\
  filter_option (playTree two_of_three_selected)
  <> "topic == '/a' or topic == '/b'".
Proof.
  split; [reflexivity|]. split; [reflexivity|]. split; [reflexivity|].
  vm_compute. discriminate.
Qed.

(** ** Play *)

(** C5: with no file loaded ([filePath] empty) [play()] is refused; the
    playing flag is set to false and no process is started. *)
Theorem play_without_file_refused (now : N) (st : Impl) :
  filePath st = "" ->
  exists st',
    play now st = Done st' /\
    is_playing st' = false /\
    started st' = started st.
Proof.
  intros Hpath. unfold play. rewrite Hpath. simpl.
  eexists. repeat split.
Qed.

Lemma play_without_file_refused_witness :
  filePath init = "" /\
  exists st',
    play 7 init = Done st' /\ is_playing st' = false /\ started st' = started init.
Proof.
  split; [reflexivity|].
  apply (play_without_file_refused 7 init). reflexivity.
Defined.

(** C6, as stated, fails: with a bag loaded and no play topic checked,
    [play()] starts [rosbag play]. *)
Lemma play_none_selected_not_refused :
  run to_loaded_none_selected init = Some loaded_none_selected /\
  none_checked (playTree loaded_none_selected) = true /\
  play 7 loaded_none_selected
  = Done (set_is_playing true
            (startDetached "rosbag"
               [Text "play"; Text "/in.bag"; Text "-q"; Text "--clock";
                Text "-r"; Number 1; Text "-s"; Number 0; Text "--topics";
                Text "__name:=play_7"]
               (set_playNode "play_7" loaded_none_selected))) /\
  ~ play_refused 7 loaded_none_selected.
Proof.
  split; [reflexivity|]. split; [reflexivity|]. split; [reflexivity|].
  intros [st' [Hrun Hsame]].
  vm_compute in Hrun. inversion Hrun; subst st'. discriminate Hsame.
Qed.

(** C6, amended: with a bag loaded, [play()] with no play topic checked is
    not refused; it starts [rosbag play] with nothing between [--topics]
    and the node name, and sets the playing flag. *)
Theorem play_none_selected_starts (now : N) (st : Impl) :
  isEmpty (filePath st) = false ->
  none_checked (playTree st) = true ->
  exists st' options,
    play now st = Done st' /\
    is_playing st' = true /\
    playNode st' = "play_" ++ decimal now /\
    started st'
    = started st
        << mkProcess "rosbag"
             (options << Text "--topics" << Text ("__name:=" ++ playNode st')).
Proof.
  intros Hpath Hnone. unfold play. rewrite Hpath. cbn [negb].
  rewrite (append_checked_none _ _ Hnone).
  eexists. eexists. repeat split.
Qed.

Lemma play_none_selected_starts_witness :
  isEmpty (filePath loaded_none_selected) = false /\
  none_checked (playTree loaded_none_selected) = true /\
  exists st' options,
    play 7 loaded_none_selected = Done st' /\
    is_playing st' = true /\
    playNode st' = "play_" ++ decimal 7 /\
    started st'
    = started loaded_none_selected
        << mkProcess "rosbag"
             (options << Text "--topics" << Text ("__name:=" ++ playNode st')).
Proof.
  split; [reflexivity|]. split; [reflexivity|].
  apply (play_none_selected_starts 7 loaded_none_selected); reflexivity.
Defined.

(** ** Time spin box and time slider *)

(** C3: with a duration of zero the division in
    [on_timeSpin_valueChanged] is not guarded: the quotient is not finite
    and its conversion to the [int] the slider takes is undefined, whatever
    the value and the range of the slider. *)
Theorem timeSpin_change_at_zero_duration (x : Q) (st : Impl) :
  (duration_of st == 0)%Q ->
  on_timeSpin_valueChanged x st = Undefined.
Proof.
  intros Hzero. unfold on_timeSpin_valueChanged, duration_of in *.
  unfold ddiv. apply Qeq_bool_iff in Hzero. rewrite Hzero.
  unfold int_sub. destruct (in_int _); reflexivity.
Qed.

Lemma timeSpin_change_at_zero_duration_witness :
  (duration_of init == 0)%Q /\ on_timeSpin_valueChanged 1 init = Undefined.
Proof.
  split; [reflexivity|].
  apply (timeSpin_change_at_zero_duration 1 init). reflexivity.
Defined.

(** The same in the window as constructed, before a bag is loaded: an edit
    of the time spin box and a clock message both reach the division. *)
Lemma fresh_window_time_change_undefined :
  enabled (TimeSpinEdited 1) init = true /\
  handle (TimeSpinEdited 1) init = Undefined /\
  enabled (ClockReceived 1000000000) init = true /\
  handle (ClockReceived 1000000000) init = Undefined.
Proof. repeat split. Qed.

(** *** Rounding *)

Local Open Scope Q_scope.

Lemma truncate_nonneg (q : Q) : 0 <= q -> truncate q = Qfloor q.
Proof.
  destruct q as [n d]. unfold truncate, Qfloor, Qle. simpl. intros H.
  apply Z.quot_div_nonneg; lia.
Qed.

Lemma round2_close (x : Q) : x - (1 # 200) <= round2 x <= x + (1 # 200).
Proof.
  unfold round2.
  pose proof (Qfloor_le (x * 100 + (1 # 2))) as Hlo.
  pose proof (Qlt_floor (x * 100 + (1 # 2))) as Hhi.
  set (k := Qfloor (x * 100 + (1 # 2))) in *.
  assert (Hk : k # 100 == inject_Z k / 100).
  { unfold Qeq, Qdiv, Qmult, Qinv, inject_Z. simpl. lia. }
  rewrite Hk.
  rewrite inject_Z_plus in Hhi. change (inject_Z 1) with 1 in Hhi.
  split.
  - apply Qle_shift_div_l; [reflexivity|]. lra.
  - apply Qle_shift_div_r; [reflexivity|]. lra.
Qed.

Lemma Qabs_upper (a b : Q) : a <= b -> - a <= b -> Qabs a <= b.
Proof. intros H1 H2. apply Qabs_Qle_condition. split; lra. Qed.

Lemma Qabs_lower (a : Q) : a <= Qabs a /\ - a <= Qabs a.
Proof.
  split; [apply Qle_Qabs|].
  rewrite <- Qabs_opp. apply Qle_Qabs.
Qed.

Lemma qBound_close (lo hi x r : Q) :
  lo <= x <= hi -> Qabs (qBound lo r hi - x) <= Qabs (r - x).
Proof.
  intros [Hlo Hhi]. unfold qBound.
  destruct (Qabs_lower (r - x)) as [Hp Hn].
  destruct (Qle_bool r lo) eqn:H1.
  - apply Qle_bool_iff in H1. apply Qabs_upper; lra.
  - destruct (Qle_bool hi r) eqn:H2.
    + apply Qle_bool_iff in H2. apply Qabs_upper; lra.
    + apply Qle_refl.
Qed.

Lemma spin_value_close (x : Q) :
  spin_minimum <= x <= spin_maximum ->
  Qabs (QDoubleSpinBox_value x - x) <= 1 # 200.
Proof.
  intros Hx. unfold QDoubleSpinBox_value.
  apply Qle_trans with (Qabs (round2 x - x)).
  - apply qBound_close, Hx.
  - destruct (round2_close x). apply Qabs_upper; lra.
Qed.

(** The slider value for an elapsed time [e] of a duration [d], on a range
    of [m] units from zero, and the time it stands for. *)
Lemma floor_scaled (m : Z) (e d : Q) :
  (0 < m)%Z -> 0 < d -> 0 <= e <= d ->
  let q := inject_Z m * (e / d) in
  let s := Qfloor q in
  0 <= q /\
  (0 <= s <= m)%Z /\
  d * (inject_Z s / inject_Z m) <= e /\
  e <= d * (inject_Z s / inject_Z m) + d / inject_Z m.
Proof.
  intros Hm Hd [He0 He1] q s.
  assert (HM : 0 < inject_Z m) by (change (inject_Z 0 < inject_Z m); rewrite <- Zlt_Qlt; exact Hm).
  assert (Hr0 : 0 <= e / d) by (apply Qle_shift_div_l; lra).
  assert (Hr1 : e / d <= 1) by (apply Qle_shift_div_r; lra).
  assert (Hq0 : 0 <= q) by (unfold q; apply Qmult_le_0_compat; lra).
  assert (Hq1 : q <= inject_Z m) by (unfold q; nra).
  pose proof (Qfloor_le q) as Hlo. pose proof (Qlt_floor q) as Hhi.
  fold s in Hlo, Hhi. rewrite inject_Z_plus in Hhi.
  change (inject_Z 1) with 1 in Hhi.
  split; [exact Hq0|]. split.
  - split.
    + change 0%Z with (Qfloor 0). apply Qfloor_resp_le, Hq0.
    + rewrite <- (Qfloor_Z m). apply Qfloor_resp_le, Hq1.
  - assert (Ht : 0 < d / inject_Z m) by (apply Qlt_shift_div_l; lra).
    assert (Hx : d * (inject_Z s / inject_Z m) == (d / inject_Z m) * inject_Z s)
      by (field; lra).
    assert (Hq : e == (d / inject_Z m) * q) by (unfold q; field; lra).
    rewrite Hx. split; nra.
Qed.

Lemma in_int_between (z m : Z) :
  (0 <= z <= m)%Z -> (m <= INT_MAX)%Z -> in_int z = true.
Proof.
  intros Hz Hm. unfold in_int, INT_MIN, INT_MAX in *.
  apply andb_true_iff. split; apply Z.leb_le; lia.
Qed.

Lemma Qeq_bool_pos (d : Q) : 0 < d -> Qeq_bool d 0 = false.
Proof.
  intros Hd. destruct (Qeq_bool d 0) eqn:H; [|reflexivity].
  apply Qeq_bool_iff in H. lra.
Qed.

(** C4, amended: for a slider range that starts at 0, a duration [d] with
    [0 < d <= 9999] and [0 <= e <= d], the round trip returns and ends
    within one slider unit of time, [d / maximum], plus the 0.005 by which
    the spin box rounds what it is given. *)
Theorem round_trip_from_zero (e : Q) (st : Impl) :
  minimum (timeSlider st) = 0%Z ->
  (0 < maximum (timeSlider st) <= INT_MAX)%Z ->
  0 < duration_of st <= spin_maximum ->
  0 <= e <= duration_of st ->
  recovers_within (tick st + (1 # 200)) e st.
Proof.
  intros Hmin Hmax Hd He.
  unfold recovers_within, round_trip, tick.
  unfold on_timeSpin_valueChanged, on_timeSlider_valueChanged.
  fold (duration_of st).
  set (d := duration_of st) in *.
  set (m := maximum (timeSlider st)) in *.
  rewrite Hmin.
  destruct (floor_scaled m e d) as [Hq [Hs [Hlo Hhi]]]; try tauto; try lia.
  set (q := inject_Z m * (e / d)) in *. set (s := Qfloor q) in *.
  unfold int_sub. rewrite Z.sub_0_r.
  rewrite (in_int_between m m) by lia.
  unfold ddiv at 1. rewrite (Qeq_bool_pos d) by tauto.
  cbn [bind int_to_double dmul]. fold q.
  unfold double_to_int. rewrite (truncate_nonneg q Hq). fold s.
  rewrite (in_int_between s m) by lia.
  cbn [bind timeSlider set_timeSlider QSlider_setValue minimum maximum value
       endTimeSpin beginTimeSpin].
  rewrite Hmin. fold m. fold (duration_of st). fold d.
  rewrite Z.sub_0_r, (in_int_between m m) by lia.
  replace (Z.max 0 (Z.min m s)) with s by lia.
  assert (HM : 0 < inject_Z m)
    by (change (inject_Z 0 < inject_Z m); rewrite <- Zlt_Qlt; lia).
  cbn [bind]. unfold int_to_double, ddiv.
  rewrite (Qeq_bool_pos (inject_Z m) HM).
  cbn [bind dmul timeSpin set_timeSpin].
  eexists. split; [reflexivity|].
  set (x := d * (inject_Z s / inject_Z m)) in *.
  assert (Hx : spin_minimum <= x <= spin_maximum).
  { unfold spin_minimum. split; [|lra].
    unfold x. apply Qmult_le_0_compat; [lra|].
    apply Qle_shift_div_l; [exact HM|].
    rewrite Qmult_0_l. change (inject_Z 0 <= inject_Z s).
    rewrite <- Zle_Qle. lia. }
  pose proof (spin_value_close x Hx) as Hclose.
  apply Qabs_Qle_condition in Hclose.
  apply Qabs_upper; lra.
Qed.

Lemma round_trip_from_zero_witness :
  minimum (timeSlider short_bag_loaded) = 0%Z /\
  (0 < maximum (timeSlider short_bag_loaded) <= INT_MAX)%Z /\
  0 < duration_of short_bag_loaded <= spin_maximum /\
  0 <= (2 # 100) <= duration_of short_bag_loaded /\
  recovers_within (tick short_bag_loaded + (1 # 200)) (2 # 100) short_bag_loaded.
Proof.
  assert (H1 : minimum (timeSlider short_bag_loaded) = 0%Z) by reflexivity.
  assert (H2 : (0 < maximum (timeSlider short_bag_loaded) <= INT_MAX)%Z)
    by (vm_compute; split; [reflexivity | discriminate]).
  assert (H3 : 0 < duration_of short_bag_loaded <= spin_maximum)
    by (vm_compute; split; [reflexivity | discriminate]).
  assert (H4 : 0 <= (2 # 100) <= duration_of short_bag_loaded)
    by (vm_compute; split; discriminate).
  split; [exact H1|]. split; [exact H2|]. split; [exact H3|].
  split; [exact H4|].
  apply (round_trip_from_zero (2 # 100) short_bag_loaded H1 H2 H3 H4).
Defined.

(** C4, as stated, fails twice. On a range that does not start at 0 the
    slider bounds the value [(max - min) * rate], to which [min] is not
    added: e = 0 of d = 1 comes back as 0.1, a tick being 0.01. On the
    range 0 .. 100 the spin box rounds to two decimals: e = 0.02 of
    d = 0.70 comes back as 0.01, a tick being 0.007. *)
Lemma round_trip_beyond_one_tick :
  run to_short_bag_loaded init = Some short_bag_loaded /\
  (0 < duration_of offset_range /\
   0 <= 0 <= duration_of offset_range /\
   round_trip 0 offset_range = Some (QDoubleSpinBox_value (1 * (10 / 100))) /\
   ~ recovers_within (tick offset_range) 0 offset_range) /\
  (0 < duration_of short_bag_loaded /\
   0 <= (2 # 100) <= duration_of short_bag_loaded /\
   round_trip (2 # 100) short_bag_loaded = Some (1 # 100) /\
   ~ recovers_within (tick short_bag_loaded) (2 # 100) short_bag_loaded).
Proof.
  split; [reflexivity|].
  split; (split; [reflexivity|]); (split; [split; discriminate|]);
    (split; [reflexivity|]).
  - intros [e' [Hrun Hclose]].
    vm_compute in Hrun. inversion Hrun; subst e'.
    vm_compute in Hclose. apply Hclose. reflexivity.
  - intros [e' [Hrun Hclose]].
    vm_compute in Hrun. inversion Hrun; subst e'.
    vm_compute in Hclose. apply Hclose. reflexivity.
Qed.

Local Close Scope Q_scope.

(** ** Open *)

Lemma loadFile_returns (fileName : string) (view : View) (st : Impl) :
  exists st',
    loadFile fileName (Some view) st = Done st' /\
    filePath st' = fileName /\
    playTree st' = map (fun info => mkItem (topic info) true) (getConnections view) /\
    timeSpin st' = timeSpin st /\
    started st' = started st.
Proof.
  unfold loadFile. eexists. split; [reflexivity|].
  cbn. rewrite take_all_nil, add_connections_app. repeat split.
Qed.

(** [stop()] always returns and leaves the trees and the position alone. *)
Lemma stop_returns (st : Impl) :
  exists mid,
    stop st = Done mid /\
    is_playing mid = false /\
    playTree mid = playTree st /\
    timeSpin mid = timeSpin st /\
    started mid
    = (started st ++ if is_playing st then [kill (playNode st)] else [])%list.
Proof.
  unfold stop, kill. destruct (is_playing st) eqn:Hflag; eexists;
    repeat split; cbn; rewrite ?app_nil_r; auto.
Qed.

Lemma open_returns (fileName : string) (view : View) (st : Impl) :
  isEmpty fileName = false ->
  exists mid st',
    stop st = Done mid /\
    open fileName (Some view) st
    = (st <- loadFile fileName (Some view) (set_timer false mid) ;;
       Done (set_timer true st)) /\
    open fileName (Some view) st = Done st' /\
    filePath st' = fileName /\
    playTree st' = map (fun info => mkItem (topic info) true) (getConnections view) /\
    timeSpin st' = timeSpin st /\
    started st' = started mid.
Proof.
  intros Hname.
  destruct (stop_returns st) as [mid [Hstop [_ [_ [Hspin _]]]]].
  destruct (loadFile_returns fileName view (set_timer false mid))
    as [st' [Hload [Hpath [Htree [Hts Hstarted]]]]].
  assert (Hopen : open fileName (Some view) st
                  = (st <- loadFile fileName (Some view) (set_timer false mid) ;;
                     Done (set_timer true st))).
  { unfold open. destruct (is_playing st) eqn:Hflag.
    - rewrite Hstop. cbn [bind]. rewrite Hname. reflexivity.
    - unfold stop in Hstop. rewrite Hflag in Hstop.
      inversion Hstop; subst mid. cbn [bind]. rewrite Hname. reflexivity. }
  exists mid, (set_timer true st').
  split; [exact Hstop|]. split; [exact Hopen|].
  split; [rewrite Hopen, Hload; reflexivity|].
  cbn [filePath playTree timeSpin started set_timer] in *.
  repeat split; try assumption.
  rewrite Hts. exact Hspin.
Qed.

(** C7, as stated, fails in its last part: [open()] does not touch the
    time spin box, so a position of 5 s is still 5 s after the next bag
    is opened. *)
Lemma open_keeps_position :
  run to_position_five init = Some position_five /\
  (timeSpin position_five == 5)%Q /\
  ~ open_resets_position "/b.bag" ten_seconds position_five.
Proof.
  split; [reflexivity|]. split; [reflexivity|].
  intros [st' [Hrun Hzero]].
  vm_compute in Hrun. inversion Hrun; subst st'.
  vm_compute in Hzero. discriminate Hzero.
Qed.

(** C7, amended: after [open()] with a file chosen and readable, the play
    tree holds the topics of the bag's connections, in their order, every
    one checked; the position (time spin box) is as it was. *)
Theorem open_selects_all (fileName : string) (view : View) (st : Impl) :
  isEmpty fileName = false ->
  exists st',
    open fileName (Some view) st = Done st' /\
    filePath st' = fileName /\
    map text (playTree st') = map topic (getConnections view) /\
    all_checked (playTree st') = true /\
    timeSpin st' = timeSpin st.
Proof.
  intros Hname.
  destruct (open_returns fileName view st Hname)
    as [mid [st' [_ [_ [Hopen [Hpath [Htree [Hspin _]]]]]]]].
  exists st'. rewrite Htree.
  destruct (selection_of_connections (getConnections view)) as [H1 H2].
  repeat split; assumption.
Qed.

Lemma open_selects_all_witness :
  isEmpty "/b.bag" = false /\
  exists st',
    open "/b.bag" (Some ten_seconds) position_five = Done st' /\
    filePath st' = "/b.bag" /\
    map text (playTree st') = map topic (getConnections ten_seconds) /\
    all_checked (playTree st') = true /\
    timeSpin st' = timeSpin position_five.
Proof.
  split; [reflexivity|].
  apply (open_selects_all "/b.bag" ten_seconds position_five). reflexivity.
Defined.

(** *** The states of [open] *)

Lemma last_nonempty {A : Type} (l : list A) (a d d' : A) :
  last (a :: l) d = last (a :: l) d'.
Proof.
  revert a. induction l as [|b l IH]; intros a; [reflexivity|].
  change (last (b :: l) d = last (b :: l) d'). apply IH.
Qed.

Lemma last_cons_default {A : Type} (l : list A) (a d : A) :
  last (a :: l) d = last l a.
Proof.
  destruct l as [|b l]; [reflexivity|].
  change (last (b :: l) d = last (b :: l) a). apply last_nonempty.
Qed.

Lemma last_app_cons {A : Type} (l l' : list A) (a d : A) :
  last (l ++ a :: l') d = last l' a.
Proof.
  induction l as [|b l IH]; [apply last_cons_default|].
  cbn [app]. rewrite last_cons_default.
  rewrite <- IH. destruct l; cbn [app]; now rewrite !last_cons_default.
Qed.

Lemma take_states_last (tree : list QTreeWidgetItem) (st : Impl) :
  playTree st = tree ->
  last (take_states tree st) st = set_playTree (take_all tree) st.
Proof.
  revert st. induction tree as [|item rest IH]; intros st Htree.
  - destruct st; cbn in *; subst; reflexivity.
  - cbn [take_states take_all]. rewrite last_cons_default.
    rewrite IH by reflexivity. reflexivity.
Qed.

Lemma add_states_last (connections : list ConnectionInfo) (st : Impl) :
  last (add_states connections st) st
  = set_playTree (add_connections connections (playTree st)) st.
Proof.
  revert st. induction connections as [|info rest IH]; intros st.
  - destruct st; reflexivity.
  - cbn [add_states add_connections]. rewrite last_cons_default.
    rewrite IH. reflexivity.
Qed.



(** The last of the states of [loadFile] is the state it returns. *)
Lemma loadFile_states_last (fileName : string) (view : View) (st : Impl) :
  loadFile fileName (Some view) st
  = Done (last (loadFile_states fileName (Some view) st) st).
Proof.
  unfold loadFile, loadFile_states. cbv zeta.
  cbn [app]. rewrite last_cons_default, last_app_cons.
  rewrite !last_cons_default, add_states_last.
  rewrite (take_states_last _ (set_filePath fileName st) eq_refl).
  reflexivity.
Qed.





(** ** The session between events *)

Lemma session_inv_frame (st st' : Impl) :
  session st' = session st -> session_inv st -> session_inv st'.
Proof.
  unfold session, session_inv, tokens_inv. intros H.
  inversion H as [[H1 H2 H3 H4 H5]]. rewrite H1, H2, H3, H4, H5. auto.
Qed.

Lemma on_timeSpin_valueChanged_session (x : Q) (st st' : Impl) :
  on_timeSpin_valueChanged x st = Done st' -> session st' = session st.
Proof.
  unfold on_timeSpin_valueChanged, int_sub, double_to_int, bind. intros H.
  split_cases H; inversion H; reflexivity.
Qed.

Lemma on_timeSlider_valueChanged_session (v : Z) (st st' : Impl) :
  on_timeSlider_valueChanged v st = Done st' -> session st' = session st.
Proof.
  unfold on_timeSlider_valueChanged, int_sub, bind. intros H.
  split_cases H; inversion H; reflexivity.
Qed.

Lemma timeSpin_setValue_session (x : Q) (st st' : Impl) :
  timeSpin_setValue x st = Done st' -> session st' = session st.
Proof.
  unfold timeSpin_setValue. intros H.
  destruct (Qeq_bool _ _).
  - inversion H; reflexivity.
  - apply on_timeSpin_valueChanged_session in H. exact H.
Qed.

Lemma play_inv (now : N) (st st' : Impl) :
  play now st = Done st' -> session_inv st -> session_inv st'.
Proof.
  unfold play. intros H [[Hp Hr] Ha].
  destruct (negb _); inversion H; subst st';
    unfold session_inv, tokens_inv, token_set; cbn; repeat split;
    auto; discriminate.
Qed.

Lemma stop_inv (st st' : Impl) :
  stop st = Done st' -> session_inv st -> session_inv st'.
Proof.
  unfold stop. intros H [[Hp Hr] Ha].
  destruct (is_playing st) eqn:Hflag; inversion H; subst st';
    unfold session_inv, tokens_inv, token_set; cbn; repeat split;
    auto; try discriminate.
  rewrite Hflag. exact Hp.
Qed.

Lemma record_inv (now : N) (b : bool) (st st' : Impl) :
  recordAct_setChecked (record_slot now) b st = Done st' ->
  session_inv st -> session_inv st'.
Proof.
  unfold recordAct_setChecked, record_slot, session_inv, tokens_inv, token_set.
  destruct_Impl st. cbn.
  intros H [[Hp Hr] Ha]. subst ir.
  destruct rtree, ra, b; cbn in H; inversion H; subst st'; cbn;
    repeat split; auto; discriminate.
Qed.

Lemma loadFile_session (fileName : string) (bag : option View) (st st' : Impl) :
  loadFile fileName bag st = Done st' -> session st' = session st.
Proof.
  unfold loadFile. intros H. destruct bag; inversion H; reflexivity.
Qed.

Lemma saveFile_session (fileName : string) (st st' : Impl) :
  saveFile fileName st = Done st' -> session st' = session st.
Proof.
  unfold saveFile. intros H. destruct (0 <? _)%Z; inversion H; reflexivity.
Qed.

Lemma stop_if_playing_inv (st st' : Impl) :
  (if is_playing st then stop st else Done st) = Done st' ->
  session_inv st -> session_inv st'.
Proof.
  intros H Hinv. destruct (is_playing st).
  - exact (stop_inv _ _ H Hinv).
  - inversion H; subst; exact Hinv.
Qed.

Lemma open_inv (fileName : string) (bag : option View) (st st' : Impl) :
  open fileName bag st = Done st' -> session_inv st -> session_inv st'.
Proof.
  unfold open. intros H Hinv.
  destruct (if is_playing st then stop st else Done st) as [mid| | |] eqn:Hmid;
    try discriminate H.
  apply stop_if_playing_inv in Hmid; [|exact Hinv].
  cbn [bind] in H. destruct (isEmpty fileName).
  - inversion H; subst st'. exact Hmid.
  - destruct (loadFile _ _ _) as [st3| | |] eqn:Hload; try discriminate H.
    apply loadFile_session in Hload.
    inversion H; subst st'.
    apply (session_inv_frame (set_timer false mid)); [|exact Hmid].
    exact Hload.
Qed.

Lemma save_inv (fileName : string) (st st' : Impl) :
  save fileName st = Done st' -> session_inv st -> session_inv st'.
Proof.
  unfold save. intros H Hinv.
  destruct (if is_playing st then stop st else Done st) as [mid| | |] eqn:Hmid;
    try discriminate H.
  apply stop_if_playing_inv in Hmid; [|exact Hinv].
  cbn [bind] in H. destruct (isEmpty fileName).
  - inversion H; subst st'. exact Hmid.
  - destruct (saveFile _ _) as [st3| | |] eqn:Hsave; try discriminate H.
    apply saveFile_session in Hsave.
    inversion H; subst st'.
    apply (session_inv_frame (set_timer false mid)); [|exact Hmid].
    exact Hsave.
Qed.

Lemma clickStop_inv (now : N) (st st' : Impl) :
  clickStop now st = Done st' -> session_inv st -> session_inv st'.
Proof.
  unfold clickStop. intros H Hinv.
  destruct (if is_recording st then _ else _) as [mid| | |] eqn:Hmid;
    try discriminate H.
  cbn [bind] in H. apply (stop_inv mid); [exact H|].
  destruct (is_recording st).
  - exact (record_inv _ _ _ _ Hmid Hinv).
  - inversion Hmid; subst; exact Hinv.
Qed.

Lemma handle_inv (ev : Event) (st st' : Impl) :
  handle ev st = Done st' -> session_inv st -> session_inv st'.
Proof.
  destruct ev; cbn [handle]; intros H Hinv.
  - exact (open_inv _ _ _ _ H Hinv).
  - exact (save_inv _ _ _ H Hinv).
  - exact (record_inv _ _ _ _ H Hinv).
  - unfold clickPlay in H.
    destruct (timeSpin_setValue 0 st) as [mid| | |] eqn:Hmid;
      try discriminate H.
    cbn [bind] in H. apply (play_inv _ _ _ H).
    apply (session_inv_frame st); [|exact Hinv].
    exact (timeSpin_setValue_session _ _ _ Hmid).
  - unfold clickResume in H. destruct (is_playing st).
    + exact (stop_inv _ _ H Hinv).
    + exact (play_inv _ _ _ H Hinv).
  - exact (clickStop_inv _ _ _ H Hinv).
  - apply (session_inv_frame st); [|exact Hinv].
    unfold config in H. destruct accepted; inversion H; reflexivity.
  - apply (session_inv_frame st); [|exact Hinv]. inversion H; reflexivity.
  - apply (session_inv_frame st); [|exact Hinv]. inversion H; reflexivity.
  - apply (session_inv_frame st); [|exact Hinv]. inversion H; reflexivity.
  - apply (session_inv_frame st); [|exact Hinv]. inversion H; reflexivity.
  - apply (session_inv_frame st); [|exact Hinv].
    unfold on_timer_timeout in H.
    destruct getTopics; [destruct (negb _)|]; inversion H; reflexivity.
  - apply (session_inv_frame st); [|exact Hinv].
    exact (timeSpin_setValue_session _ _ _ H).
  - apply (session_inv_frame st); [|exact Hinv].
    destruct (v =? _)%Z; [inversion H; reflexivity|].
    apply on_timeSlider_valueChanged_session in H. exact H.
  - apply (session_inv_frame st); [|exact Hinv].
    exact (timeSpin_setValue_session _ _ _ H).
Qed.

Lemma reachable_inv (st : Impl) : reachable st -> session_inv st.
Proof.
  induction 1 as [|ev st st' _ IH _ Hstep].
  - unfold session_inv, tokens_inv, token_set. cbn.
    repeat split; discriminate.
  - exact (handle_inv ev st st' Hstep IH).
Qed.

Lemma run_reachable (evs : list Event) (st st' : Impl) :
  reachable st -> run evs st = Some st' -> reachable st'.
Proof.
  revert st. induction evs as [|ev rest IH]; intros st Hst Hrun.
  - inversion Hrun; subst; exact Hst.
  - cbn [run] in Hrun.
    destruct (enabled ev st) eqn:Hen; [|discriminate Hrun].
    destruct (handle ev st) as [mid| | |] eqn:Hstep; try discriminate Hrun.
    apply (IH mid); [|exact Hrun].
    exact (reachable_step ev st mid Hst Hen Hstep).
Qed.

Lemma both_running_reachable : reachable both_running.
Proof.
  apply (run_reachable to_both_running init).
  - apply reachable_init.
  - reflexivity.
Qed.

(** C9, as stated, fails in one direction: [stop()] switches the playing
    flag off and leaves the node name, so after open, play and stop the
    flag is off and the name still set. *)
Lemma stop_keeps_token :
  reachable played_and_stopped /\
  is_playing played_and_stopped = false /\
  playNode played_and_stopped = "play_3" /\
  ~ flags_iff_tokens played_and_stopped.
Proof.
  split.
  { apply (run_reachable to_played_and_stopped init).
    - apply reachable_init.
    - reflexivity. }
  split; [reflexivity|]. split; [reflexivity|].
  intros [[_ Hplay] _].
  assert (H : is_playing played_and_stopped = true)
    by (apply Hplay; discriminate).
  discriminate H.
Qed.

(** C9, amended: in every reachable state, a playing flag that is on has
    the play node name set, and a recording flag that is on has the record
    node name set. *)
Theorem flags_imply_tokens (st : Impl) :
  reachable st ->
  (is_playing st = true -> playNode st <> "") /\
  (is_recording st = true -> recordNode st <> "").
Proof. intros H. apply reachable_inv in H. apply H. Qed.

Lemma flags_imply_tokens_witness :
  reachable both_running /\
  is_playing both_running = true /\
  is_recording both_running = true /\
  (is_playing both_running = true -> playNode both_running <> "") /\
  (is_recording both_running = true -> recordNode both_running <> "").
Proof.
  split; [exact both_running_reachable|].
  split; [reflexivity|]. split; [reflexivity|].
  apply (flags_imply_tokens both_running). exact both_running_reachable.
Defined.

(** C10: from every reachable state [clickStop()] returns with both flags
    off and the record action unchecked; it has started the kill of the
    record node if recording was on, and after it the kill of the play
    node if playing was on. *)
Theorem clickStop_stops_both (now : N) (st : Impl) :
  reachable st ->
  exists st',
    clickStop now st = Done st' /\
    is_playing st' = false /\
    is_recording st' = false /\
    recordAct st' = false /\
    started st'
    = (started st
       ++ (if is_recording st then [kill (recordNode st)] else [])
       ++ (if is_playing st then [kill (playNode st)] else []))%list.
Proof.
  intros Hreach. apply reachable_inv in Hreach.
  destruct Hreach as [_ Hact].
  unfold clickStop, recordAct_setChecked, record_slot, stop, kill.
  destruct_Impl st. cbn in Hact. subst ra.
  destruct rtree, ir, ip; cbn; eexists; repeat split; cbn;
    rewrite <- ?app_assoc, ?app_nil_r; reflexivity.
Qed.

Lemma clickStop_stops_both_witness :
  reachable both_running /\
  exists st',
    clickStop 9 both_running = Done st' /\
    is_playing st' = false /\
    is_recording st' = false /\
    recordAct st' = false /\
    started st'
    = (started both_running
       ++ (if is_recording both_running
           then [kill (recordNode both_running)] else [])
       ++ (if is_playing both_running
           then [kill (playNode both_running)] else []))%list.
Proof.
  split; [exact both_running_reachable|].
  apply (clickStop_stops_both 9 both_running). exact both_running_reachable.
Defined.

(** * More properties *)

(** ** The topic poll *)

Lemma add_topics_app (topics : list TopicInfo) (tree : list QTreeWidgetItem) :
  add_topics topics tree = (tree ++ polled_items topics)%list.
Proof.
  revert tree. unfold polled_items.
  induction topics as [|info rest IH]; intros tree; simpl.
  - now rewrite app_nil_r.
  - rewrite IH. now rewrite <- app_assoc.
Qed.

Lemma polled_items_selection (topics : list TopicInfo) :
  map text (polled_items topics) = map name topics /\
  all_checked (polled_items topics) = true.
Proof.
  induction topics as [|info rest [IH1 IH2]]; simpl; split; auto.
  f_equal. exact IH1.
Qed.

Lemma click_item_length (i : nat) (tree : list QTreeWidgetItem) :
  List.length (click_item i tree) = List.length tree.
Proof.
  revert i. induction tree as [|item rest IH]; intros [|j]; simpl; auto.
Qed.

Lemma poll_inv_frame (st st' : Impl) :
  poll_fields st' = poll_fields st -> poll_inv st -> poll_inv st'.
Proof.
  unfold poll_fields, poll_inv, topLevelItemCount. intros H.
  inversion H as [[H1 H2]]. rewrite H1, H2. auto.
Qed.

Lemma on_timer_timeout_poll_inv (getTopics : option (list TopicInfo))
  (st st' : Impl) :
  on_timer_timeout getTopics st = Done st' -> poll_inv st -> poll_inv st'.
Proof.
  unfold on_timer_timeout, poll_inv, topLevelItemCount. intros H Hinv.
  destruct getTopics as [topics|]; [|inversion H; subst; exact Hinv].
  destruct (negb _); inversion H; subst; [|exact Hinv].
  cbn. rewrite take_all_nil, add_topics_app. simpl.
  unfold polled_items. now rewrite length_map.
Qed.

Lemma handle_poll_inv (ev : Event) (st st' : Impl) :
  handle ev st = Done st' -> poll_inv st -> poll_inv st'.
Proof.
  intros H Hinv.
  destruct ev;
    try (apply (poll_inv_frame st); [|exact Hinv];
         unfold_slots H; split_inner H; inversion H; reflexivity).
  - apply (poll_inv_frame st); [|exact Hinv].
    cbn [handle] in H. unfold checkRecord in H. inversion H.
    unfold poll_fields. cbn [numTopics recordTree set_recordTree].
    now rewrite length_map.
  - apply (poll_inv_frame st); [|exact Hinv].
    cbn [handle] in H. inversion H.
    unfold poll_fields. cbn [numTopics recordTree set_recordTree].
    now rewrite click_item_length.
  - exact (on_timer_timeout_poll_inv _ _ _ H Hinv).
Qed.

Lemma reachable_poll_inv (st : Impl) : reachable st -> poll_inv st.
Proof.
  induction 1 as [|ev st st' _ IH _ Hstep].
  - reflexivity.
  - exact (handle_poll_inv ev st st' Hstep IH).
Qed.

Lemma to_size_t_to_int (n : Z) :
  0 <= n <= INT_MAX -> to_size_t (to_int n) = n.
Proof.
  unfold to_size_t, to_int, INT_MAX. intros Hn.
  rewrite (Z.mod_small (n + 2 ^ 31)) by lia.
  rewrite Z.mod_small; lia.
Qed.

(** X1: in every reachable state the static count of the topic poll is
    the number of items of the record tree (as an [int]); checking,
    unchecking and recording do not disturb it. *)
Theorem numTopics_counts_record_items (st : Impl) :
  reachable st ->
  numTopics st = to_int (topLevelItemCount (recordTree st)).
Proof. exact (reachable_poll_inv st). Qed.

Lemma numTopics_counts_record_items_witness :
  reachable both_running /\
  numTopics both_running = to_int (topLevelItemCount (recordTree both_running)).
Proof.
  split; [exact both_running_reachable|].
  apply (numTopics_counts_record_items both_running).
  exact both_running_reachable.
Defined.

(** X2: a poll that finds as many topics as the record tree has items is
    ignored, whatever the topics are: the state is unchanged, so a topic
    that replaced another is not shown. *)
Theorem poll_same_count_ignored (topics : list TopicInfo) (st : Impl) :
  reachable st ->
  List.length topics = List.length (recordTree st) ->
  Z.of_nat (List.length topics) <= INT_MAX ->
  on_timer_timeout (Some topics) st = Done st.
Proof.
  intros Hreach Hlen Hmax. apply reachable_poll_inv in Hreach.
  unfold on_timer_timeout. rewrite Hreach. unfold topLevelItemCount.
  rewrite <- Hlen. rewrite to_size_t_to_int by lia.
  rewrite Z.eqb_refl. reflexivity.
Qed.

Lemma poll_same_count_ignored_witness :
  reachable both_running /\
  List.length other_topic = List.length (recordTree both_running) /\
  Z.of_nat (List.length other_topic) <= INT_MAX /\
  map name other_topic <> map text (recordTree both_running) /\
  on_timer_timeout (Some other_topic) both_running = Done both_running.
Proof.
  assert (H1 : List.length other_topic = List.length (recordTree both_running))
    by reflexivity.
  assert (H2 : Z.of_nat (List.length other_topic) <= INT_MAX)
    by (vm_compute; discriminate).
  split; [exact both_running_reachable|].
  split; [exact H1|]. split; [exact H2|]. split; [discriminate|].
  exact (poll_same_count_ignored other_topic both_running
           both_running_reachable H1 H2).
Defined.

(** X3: a poll that finds another number of topics than the record tree
    has items replaces the tree by the topics found, in their order and
    all checked, so what the user had unchecked is checked again; it
    starts no process and leaves the recording flag alone. *)
Theorem poll_changed_count_rebuilds (topics : list TopicInfo) (st : Impl) :
  reachable st ->
  List.length topics <> List.length (recordTree st) ->
  Z.of_nat (List.length topics) <= INT_MAX ->
  Z.of_nat (List.length (recordTree st)) <= INT_MAX ->
  exists st',
    on_timer_timeout (Some topics) st = Done st' /\
    map text (recordTree st') = map name topics /\
    all_checked (recordTree st') = true /\
    numTopics st' = Z.of_nat (List.length topics) /\
    started st' = started st /\
    is_recording st' = is_recording st /\
    recordAct st' = recordAct st.
Proof.
  intros Hreach Hlen Hmax Hold. apply reachable_poll_inv in Hreach.
  unfold on_timer_timeout. rewrite Hreach. unfold topLevelItemCount.
  rewrite to_size_t_to_int by lia.
  destruct (Z.eqb_spec (Z.of_nat (List.length topics))
              (Z.of_nat (List.length (recordTree st)))) as [Heq|Hne];
    [apply Nat2Z.inj in Heq; contradiction|].
  cbn [negb]. eexists. split; [reflexivity|].
  cbn. rewrite take_all_nil, add_topics_app. cbn [app].
  destruct (polled_items_selection topics) as [Hnames Hall].
  repeat split; try assumption.
  unfold to_int, INT_MAX in *. rewrite Z.mod_small by lia. lia.
Qed.

Lemma poll_changed_count_rebuilds_witness :
  reachable one_unchecked_record_topic /\
  all_checked (recordTree one_unchecked_record_topic) = false /\
  exists st',
    on_timer_timeout (Some two_topics) one_unchecked_record_topic = Done st' /\
    map text (recordTree st') = map name two_topics /\
    all_checked (recordTree st') = true /\
    numTopics st' = Z.of_nat (List.length two_topics) /\
    started st' = started one_unchecked_record_topic /\
    is_recording st' = is_recording one_unchecked_record_topic /\
    recordAct st' = recordAct one_unchecked_record_topic.
Proof.
  assert (Hreach : reachable one_unchecked_record_topic)
    by (apply (run_reachable to_one_unchecked_record_topic init);
        [apply reachable_init | reflexivity]).
  split; [exact Hreach|]. split; [reflexivity|].
  apply (poll_changed_count_rebuilds two_topics one_unchecked_record_topic
           Hreach).
  - discriminate.
  - vm_compute; discriminate.
  - vm_compute; discriminate.
Defined.

(** ** The record action *)

(** X4: in every reachable state the record action is checked exactly
    while the window is recording. *)
Theorem record_action_tracks_recording (st : Impl) :
  reachable st -> recordAct st = is_recording st.
Proof. intros H. apply reachable_inv in H. apply H. Qed.

Lemma record_action_tracks_recording_witness :
  reachable both_running /\
  recordAct both_running = is_recording both_running.
Proof.
  split; [exact both_running_reachable|].
  apply (record_action_tracks_recording both_running).
  exact both_running_reachable.
Defined.

(** ** Spin boxes and slider *)

Lemma spin_value_intro (x : Q) : spin_value (QDoubleSpinBox_value x).
Proof. exists x. reflexivity. Qed.

Lemma handle_widgets_inv (ev : Event) (st st' : Impl) :
  enabled ev st = true ->
  handle ev st = Done st' -> widgets_inv st -> widgets_inv st'.
Proof.
  unfold widgets_inv.
  intros Hen H (Hmin & Hmax & Hval & Hbegin & Hend & Hts).
  destruct ev; unfold_slots H; fields_in H; split_inner H; inversion H;
    subst; fields; rewrite ?Hmin, ?Hmax;
    repeat split; try assumption; try apply spin_value_intro; try lia;
    try reflexivity.
  all: cbn [enabled] in Hen; rewrite Hmin, Hmax in Hen;
    apply andb_true_iff in Hen; destruct Hen as [H1 H2];
    apply Z.leb_le in H1; apply Z.leb_le in H2; lia.
Qed.

Lemma reachable_widgets_inv (st : Impl) : reachable st -> widgets_inv st.
Proof.
  induction 1 as [|ev st st' _ IH Hen Hstep].
  - unfold widgets_inv. cbn.
    repeat split; try lia; exists 0%Q; reflexivity.
  - exact (handle_widgets_inv ev st st' Hen Hstep IH).
Qed.

Lemma qBound_range (lo r hi : Q) :
  (lo <= hi)%Q -> (lo <= qBound lo r hi <= hi)%Q.
Proof.
  intros Hle. unfold qBound.
  destruct (Qle_bool r lo) eqn:H1; [split; [apply Qle_refl | exact Hle]|].
  destruct (Qle_bool hi r) eqn:H2; [split; [exact Hle | apply Qle_refl]|].
  split; apply Qlt_le_weak; apply Qnot_le_lt; intros Hc;
    apply Qle_bool_iff in Hc; congruence.
Qed.

Lemma spin_value_range (q : Q) :
  spin_value q -> (spin_minimum <= q <= spin_maximum)%Q.
Proof.
  intros [x Hx]. subst q. unfold QDoubleSpinBox_value.
  apply qBound_range. discriminate.
Qed.

(** A spin box value above zero is at least one hundredth. *)
Lemma spin_value_positive (q : Q) :
  spin_value q -> (0 < q)%Q -> (1 # 100 <= q)%Q.
Proof.
  intros [x Hx] Hpos. subst q.
  unfold QDoubleSpinBox_value, qBound, spin_minimum, spin_maximum in *.
  destruct (Qle_bool (round2 x) 0) eqn:H1.
  - exfalso. revert Hpos. apply Qlt_irrefl.
  - destruct (Qle_bool 9999 (round2 x)) eqn:H2; [discriminate|].
    unfold round2 in *. unfold Qlt, Qle in *. cbn in *. lia.
Qed.

(** X5: in every reachable state the slider has the range 0 .. 100 and a
    value in it, the begin spin box is at 0, and the end spin box and the
    position spin box hold values in 0 .. 9999. *)
Theorem widgets_stay_in_range (st : Impl) :
  reachable st ->
  minimum (timeSlider st) = 0 /\
  maximum (timeSlider st) = 100 /\
  0 <= value (timeSlider st) <= 100 /\
  beginTimeSpin st = 0%Q /\
  (0 <= endTimeSpin st <= 9999)%Q /\
  (0 <= timeSpin st <= 9999)%Q.
Proof.
  intros H. apply reachable_widgets_inv in H.
  destruct H as (Hmin & Hmax & Hval & Hbegin & Hend & Hts).
  repeat split; try assumption; try lia;
    try apply (spin_value_range _ Hend); apply (spin_value_range _ Hts).
Qed.

Lemma widgets_stay_in_range_witness :
  reachable position_five /\
  minimum (timeSlider position_five) = 0 /\
  maximum (timeSlider position_five) = 100 /\
  0 <= value (timeSlider position_five) <= 100 /\
  beginTimeSpin position_five = 0%Q /\
  (0 <= endTimeSpin position_five <= 9999)%Q /\
  (0 <= timeSpin position_five <= 9999)%Q.
Proof.
  assert (Hreach : reachable position_five)
    by (apply (run_reachable to_position_five init);
        [apply reachable_init | reflexivity]).
  split; [exact Hreach|].
  exact (widgets_stay_in_range position_five Hreach).
Defined.

(** ** No undefined behaviour once a bag with a duration is loaded *)

Lemma on_timeSpin_valueChanged_returns (v : Q) (st : Impl) :
  widgets_inv st ->
  (0 < endTimeSpin st)%Q ->
  (0 <= v <= 9999)%Q ->
  on_timeSpin_valueChanged v st
  = Done (set_timeSlider
            (mkSlider 0 100
               (Z.min 100 (Qfloor (inject_Z 100 * (v / (endTimeSpin st - 0))))))
            st).
Proof.
  intros (Hmin & Hmax & Hval & Hbegin & Hend & Hts) Hpos Hv.
  pose proof (spin_value_positive _ Hend Hpos) as Hd.
  unfold on_timeSpin_valueChanged, QSlider_setValue.
  rewrite Hmin, Hmax, Hbegin.
  change (int_sub 100 0) with (@Done Z 100). cbn [bind].
  set (d := (endTimeSpin st - 0)%Q).
  assert (Hd' : (1 # 100 <= d)%Q) by (unfold d; lra).
  unfold ddiv. rewrite (Qeq_bool_pos d) by lra.
  unfold int_to_double. cbn [dmul].
  set (q := (inject_Z 100 * (v / d))%Q).
  assert (Hr0 : (0 <= v / d)%Q) by (apply Qle_shift_div_l; lra).
  assert (Hr1 : (v / d <= 999900)%Q) by (apply Qle_shift_div_r; lra).
  assert (Hq0 : (0 <= q)%Q)
    by (unfold q; apply Qmult_le_0_compat; [discriminate | exact Hr0]).
  assert (Hq1 : (q <= inject_Z 99990000)%Q).
  { unfold q. change (inject_Z 100) with 100%Q.
    change (inject_Z 99990000) with 99990000%Q. lra. }
  unfold double_to_int. rewrite (truncate_nonneg q Hq0).
  assert (Hs : 0 <= Qfloor q <= 99990000).
  { split.
    - change 0 with (Qfloor 0). apply Qfloor_resp_le, Hq0.
    - rewrite <- (Qfloor_Z 99990000). apply Qfloor_resp_le, Hq1. }
  rewrite (in_int_between (Qfloor q) 99990000)
    by (try assumption; unfold INT_MAX; lia).
  cbn [bind].
  replace (Z.max 0 (Z.min 100 (Qfloor q))) with (Z.min 100 (Qfloor q)) by lia.
  reflexivity.
Qed.

Lemma on_timeSlider_valueChanged_returns (v : Z) (st : Impl) :
  widgets_inv st ->
  on_timeSlider_valueChanged v st
  = Done (set_timeSpin
            (QDoubleSpinBox_value
               ((endTimeSpin st - 0) * (inject_Z v / inject_Z 100))) st).
Proof.
  intros (Hmin & Hmax & Hval & Hbegin & Hend & Hts).
  unfold on_timeSlider_valueChanged. rewrite Hmin, Hmax, Hbegin.
  reflexivity.
Qed.

Lemma timeSpin_setValue_returns (x : Q) (st : Impl) :
  widgets_inv st ->
  (0 < endTimeSpin st)%Q ->
  exists st', timeSpin_setValue x st = Done st'.
Proof.
  intros Hinv Hpos. unfold timeSpin_setValue.
  destruct (Qeq_bool _ _); [eexists; reflexivity|].
  rewrite on_timeSpin_valueChanged_returns.
  - eexists; reflexivity.
  - destruct Hinv as (Hmin & Hmax & Hval & Hbegin & Hend & Hts).
    unfold widgets_inv. fields.
    split; [exact Hmin|]. split; [exact Hmax|]. split; [exact Hval|].
    split; [exact Hbegin|]. split; [exact Hend|]. apply spin_value_intro.
  - exact Hpos.
  - apply (spin_value_range _ (spin_value_intro x)).
Qed.

Lemma play_returns (now : N) (st : Impl) : exists st', play now st = Done st'.
Proof. unfold play. destruct (negb _); eexists; reflexivity. Qed.

Lemma recordAct_setChecked_returns (now : N) (b : bool) (st : Impl) :
  exists st', recordAct_setChecked (record_slot now) b st = Done st'.
Proof.
  unfold recordAct_setChecked. destruct (Bool.eqb _ _).
  - eexists; reflexivity.
  - apply record_slot_returns.
Qed.

(** X6: in a reachable state whose end spin box is above zero (a bag with
    a duration is loaded), every event that can occur returns, except
    opening a file that cannot be read: no slot reaches undefined
    behaviour. *)
Theorem loaded_bag_events_return (ev : Event) (st : Impl) :
  reachable st ->
  (0 < endTimeSpin st)%Q ->
  enabled ev st = true ->
  readable ev = true ->
  exists st', handle ev st = Done st'.
Proof.
  intros Hreach Hpos Hen Hread.
  pose proof (reachable_widgets_inv st Hreach) as Hinv.
  destruct ev; cbn [handle].
  - unfold open.
    destruct (stop_returns st) as [mid [Hstop _]].
    assert (Hmid : exists mid',
               (if is_playing st then stop st else Done st) = Done mid')
      by (destruct (is_playing st); eexists; [exact Hstop | reflexivity]).
    destruct Hmid as [mid' Hmid]. rewrite Hmid. cbn [bind].
    destruct (isEmpty fileName) eqn:Hname; [eexists; reflexivity|].
    destruct bag as [view|].
    + destruct (loadFile_returns fileName view (set_timer false mid'))
        as [st' [Hload _]].
      rewrite Hload. eexists; reflexivity.
    + cbn [readable] in Hread. congruence.
  - unfold save.
    destruct (stop_returns st) as [mid [Hstop _]].
    assert (Hmid : exists mid',
               (if is_playing st then stop st else Done st) = Done mid')
      by (destruct (is_playing st); eexists; [exact Hstop | reflexivity]).
    destruct Hmid as [mid' Hmid]. rewrite Hmid. cbn [bind].
    destruct (isEmpty fileName); [eexists; reflexivity|].
    unfold saveFile. destruct (0 <? _); eexists; reflexivity.
  - apply recordAct_setChecked_returns.
  - unfold clickPlay.
    destruct (timeSpin_setValue_returns 0 st Hinv Hpos) as [mid Hmid].
    rewrite Hmid. cbn [bind]. apply play_returns.
  - unfold clickResume. destruct (is_playing st).
    + destruct (stop_returns st) as [mid [Hstop _]]. eauto.
    + apply play_returns.
  - unfold clickStop.
    assert (Hmid : exists mid,
               (if is_recording st
                then recordAct_setChecked (record_slot now) false st
                else Done st) = Done mid)
      by (destruct (is_recording st);
          [apply recordAct_setChecked_returns | eexists; reflexivity]).
    destruct Hmid as [mid Hmid]. rewrite Hmid. cbn [bind].
    destruct (stop_returns mid) as [st' [Hstop _]]. eauto.
  - unfold config. destruct accepted; eexists; reflexivity.
  - eexists; reflexivity.
  - eexists; reflexivity.
  - eexists; reflexivity.
  - eexists; reflexivity.
  - unfold on_timer_timeout.
    destruct getTopics; [destruct (negb _)|]; eexists; reflexivity.
  - exact (timeSpin_setValue_returns x st Hinv Hpos).
  - destruct (v =? _); [eexists; reflexivity|].
    rewrite on_timeSlider_valueChanged_returns; [eexists; reflexivity|].
    cbn [enabled] in Hen.
    destruct Hinv as (Hmin & Hmax & Hval & Hbegin & Hend & Hts).
    rewrite Hmin, Hmax in Hen.
    apply andb_true_iff in Hen. destruct Hen as [H1 H2].
    apply Z.leb_le in H1. apply Z.leb_le in H2.
    unfold widgets_inv. fields. rewrite Hmin, Hmax.
    repeat split; try assumption; lia.
  - unfold clockCallback. apply (timeSpin_setValue_returns _ st Hinv Hpos).
Qed.

Lemma loaded_bag_events_return_witness :
  reachable position_five /\
  (0 < endTimeSpin position_five)%Q /\
  enabled (ClockReceived 12000000000) position_five = true /\
  readable (ClockReceived 12000000000) = true /\
  exists st', handle (ClockReceived 12000000000) position_five = Done st'.
Proof.
  assert (Hreach : reachable position_five)
    by (apply (run_reachable to_position_five init);
        [apply reachable_init | reflexivity]).
  assert (Hpos : (0 < endTimeSpin position_five)%Q) by reflexivity.
  split; [exact Hreach|]. split; [exact Hpos|].
  split; [reflexivity|]. split; [reflexivity|].
  exact (loaded_bag_events_return (ClockReceived 12000000000) position_five
           Hreach Hpos eq_refl eq_refl).
Defined.

(** X7: with a duration of zero and a position that is not zero, the play
    action is undefined: [clickPlay()] resets the position, the change
    reaches [on_timeSpin_valueChanged] and its division. The state arises
    when a bag without duration is opened after the position was moved. *)
Theorem clickPlay_at_zero_duration (now : N) (st : Impl) :
  (duration_of st == 0)%Q ->
  ~ (timeSpin st == 0)%Q ->
  clickPlay now st = Undefined.
Proof.
  intros Hzero Hpos. unfold clickPlay, timeSpin_setValue.
  change (QDoubleSpinBox_value 0) with 0%Q.
  destruct (Qeq_bool 0 (timeSpin st)) eqn:Heq.
  - apply Qeq_bool_iff in Heq. exfalso. apply Hpos. symmetry. exact Heq.
  - unfold on_timeSpin_valueChanged, duration_of in *. fields.
    unfold ddiv. apply Qeq_bool_iff in Hzero. rewrite Hzero.
    unfold int_sub. destruct (in_int _); reflexivity.
Qed.

Lemma clickPlay_at_zero_duration_witness :
  run to_position_without_duration init = Some position_without_duration /\
  (duration_of position_without_duration == 0)%Q /\
  ~ (timeSpin position_without_duration == 0)%Q /\
  clickPlay 7 position_without_duration = Undefined.
Proof.
  assert (H1 : (duration_of position_without_duration == 0)%Q) by reflexivity.
  assert (H2 : ~ (timeSpin position_without_duration == 0)%Q)
    by (intros H; vm_compute in H; discriminate H).
  split; [reflexivity|]. split; [exact H1|]. split; [exact H2|].
  exact (clickPlay_at_zero_duration 7 position_without_duration H1 H2).
Defined.

(** ** What is started *)

Lemma map_Text_checked (tree : list QTreeWidgetItem) :
  map (fun item => Text (text item)) (filter checkState tree)
  = map Text (checked_names tree).
Proof. unfold checked_names. now rewrite map_map. Qed.

Lemma play_starts_player_aux (now : N) (st : Impl) :
  isEmpty (filePath st) = false ->
  play now st
  = Done (set_is_playing true
            (set_started (started st << play_process now st)
               (set_playNode ("play_" ++ decimal now) st))).
Proof.
  intros Hpath. unfold play, play_process, play_options, startDetached.
  rewrite Hpath. cbn [negb]. fields.
  rewrite append_checked_app, map_Text_checked.
  destruct (is_clock_checked st), (is_loop_checked st); cbn [app];
    rewrite <- ?app_assoc; reflexivity.
Qed.

(** X8: with a file loaded, [play()] starts [rosbag play] on the file
    with [-q], [--clock] exactly when the clock option is on, the rate,
    the position of the time spin box as start, [-l] exactly when the
    loop option is on, the names of the checked play topics in their
    order and a node name made of the clock; it keeps that name and sets
    the playing flag. *)
Theorem play_starts_player (now : N) (st : Impl) :
  isEmpty (filePath st) = false ->
  play now st
  = Done (set_is_playing true
            (set_started (started st << play_process now st)
               (set_playNode ("play_" ++ decimal now) st))).
Proof. exact (play_starts_player_aux now st). Qed.

Lemma play_starts_player_witness :
  isEmpty (filePath two_of_three_selected) = false /\
  play 7 two_of_three_selected
  = Done (set_is_playing true
            (set_started
               (started two_of_three_selected
                << play_process 7 two_of_three_selected)
               (set_playNode ("play_" ++ decimal 7) two_of_three_selected))).
Proof.
  split; [reflexivity|].
  exact (play_starts_player 7 two_of_three_selected eq_refl).
Defined.

Lemma record_starts_recorder_aux (now : N) (st : Impl) :
  recordTree st <> [] ->
  record_slot now true st
  = Done (set_is_recording true
            (set_started (started st << record_process now st)
               (set_recordNode ("record_" ++ decimal now) st))).
Proof.
  intros Hne. unfold record_slot, record_process, startDetached.
  cbn [record].
  destruct (recordTree st) as [|item rest] eqn:Htree; [congruence|].
  unfold topLevelItemCount. cbn [List.length].
  change (Z.of_nat (S (List.length rest)) =? 0) with false.
  change (0 <? Z.of_nat (S (List.length rest))) with true.
  cbn [bind]. rewrite Htree. fields.
  rewrite append_checked_app, map_Text_checked. reflexivity.
Qed.

(** X9: with a record tree that is not empty, [record(true)] starts
    [rosbag record] with the names of the checked record topics in their
    order and a node name made of the clock; it keeps that name, sets the
    recording flag and leaves the record action as it is. *)
Theorem record_starts_recorder (now : N) (st : Impl) :
  recordTree st <> [] ->
  record_slot now true st
  = Done (set_is_recording true
            (set_started (started st << record_process now st)
               (set_recordNode ("record_" ++ decimal now) st))).
Proof. exact (record_starts_recorder_aux now st). Qed.

Lemma record_starts_recorder_witness :
  recordTree both_running <> [] /\
  record_slot 9 true both_running
  = Done (set_is_recording true
            (set_started (started both_running << record_process 9 both_running)
               (set_recordNode ("record_" ++ decimal 9) both_running))).
Proof.
  assert (H : recordTree both_running <> []) by discriminate.
  split; [exact H|].
  exact (record_starts_recorder 9 both_running H).
Defined.

(** ** Starting and stopping *)

(** X10: checking the record action and unchecking it again, from a
    reachable state that is not recording and has record topics, starts
    the recorder and then kills the node of that name; the window is not
    recording afterwards and nothing else was started. *)
Theorem record_on_then_off (t1 t2 : N) (st : Impl) :
  reachable st ->
  is_recording st = false ->
  recordTree st <> [] ->
  exists st1 st2,
    handle (RecordTriggered t1) st = Done st1 /\
    is_recording st1 = true /\
    recordAct st1 = true /\
    handle (RecordTriggered t2) st1 = Done st2 /\
    is_recording st2 = false /\
    recordAct st2 = false /\
    started st2
    = started st << record_process t1 st << kill ("record_" ++ decimal t1).
Proof.
  intros Hreach Hoff Hne.
  apply reachable_inv in Hreach. destruct Hreach as [_ Hact].
  rewrite Hoff in Hact.
  cbn [handle]. unfold recordAct_setChecked at 1.
  rewrite Hact. cbn [negb Bool.eqb].
  rewrite record_starts_recorder_aux by (fields; exact Hne).
  eexists. eexists. split; [reflexivity|].
  split; [reflexivity|]. split; [reflexivity|].
  unfold recordAct_setChecked, record_slot. fields. cbn [negb Bool.eqb].
  cbn [record]. fields.
  destruct (recordTree st) as [|item rest] eqn:Htree; [congruence|].
  unfold topLevelItemCount. cbn [List.length].
  change (Z.of_nat (S (List.length rest)) =? 0) with false.
  cbn [bind]. fields.
  split; [reflexivity|]. split; [reflexivity|]. split; [reflexivity|].
  unfold record_process, kill. fields. rewrite Htree. reflexivity.
Qed.

Lemma one_unchecked_record_topic_reachable :
  reachable one_unchecked_record_topic.
Proof.
  apply (run_reachable to_one_unchecked_record_topic init);
    [apply reachable_init | reflexivity].
Qed.

Lemma record_on_then_off_witness :
  reachable one_unchecked_record_topic /\
  is_recording one_unchecked_record_topic = false /\
  recordTree one_unchecked_record_topic <> [] /\
  exists st1 st2,
    handle (RecordTriggered 1) one_unchecked_record_topic = Done st1 /\
    is_recording st1 = true /\
    recordAct st1 = true /\
    handle (RecordTriggered 2) st1 = Done st2 /\
    is_recording st2 = false /\
    recordAct st2 = false /\
    started st2
    = started one_unchecked_record_topic
        << record_process 1 one_unchecked_record_topic
        << kill ("record_" ++ decimal 1).
Proof.
  assert (H : recordTree one_unchecked_record_topic <> []) by discriminate.
  split; [exact one_unchecked_record_topic_reachable|].
  split; [reflexivity|]. split; [exact H|].
  exact (record_on_then_off 1 2 one_unchecked_record_topic
           one_unchecked_record_topic_reachable eq_refl H).
Defined.

(** X11: the pause action twice, from a state that is not playing and has
    a file loaded, starts the player at the position of the time spin box
    and then kills the node of that name; the position is not touched and
    the window is not playing afterwards. *)
Theorem resume_then_pause (t1 t2 : N) (st : Impl) :
  is_playing st = false ->
  isEmpty (filePath st) = false ->
  exists st1 st2,
    clickResume t1 st = Done st1 /\
    is_playing st1 = true /\
    clickResume t2 st1 = Done st2 /\
    is_playing st2 = false /\
    timeSpin st2 = timeSpin st /\
    started st2
    = started st << play_process t1 st << kill ("play_" ++ decimal t1).
Proof.
  intros Hoff Hpath. unfold clickResume at 1. rewrite Hoff.
  rewrite (play_starts_player_aux t1 st Hpath).
  eexists. eexists. split; [reflexivity|]. split; [reflexivity|].
  unfold clickResume, stop. fields.
  split; [reflexivity|]. repeat split.
Qed.

Lemma resume_then_pause_witness :
  is_playing position_five = false /\
  isEmpty (filePath position_five) = false /\
  exists st1 st2,
    clickResume 1 position_five = Done st1 /\
    is_playing st1 = true /\
    clickResume 2 st1 = Done st2 /\
    is_playing st2 = false /\
    timeSpin st2 = timeSpin position_five /\
    started st2
    = started position_five << play_process 1 position_five
        << kill ("play_" ++ decimal 1).
Proof.
  split; [reflexivity|]. split; [reflexivity|].
  exact (resume_then_pause 1 2 position_five eq_refl eq_refl).
Defined.

(** *** Node names *)

Lemma decimal_inj (a b : N) : decimal a = decimal b -> a = b.
Proof.
  unfold decimal. intros H.
  assert (Hu : Some (N.to_uint a) = Some (N.to_uint b))
    by (rewrite <- !NilEmpty.usu; now rewrite H).
  inversion Hu as [Hd]. now apply Unsigned.to_uint_inj.
Qed.

Lemma append_inj_l (p a b : string) : p ++ a = p ++ b -> a = b.
Proof.
  induction p as [|c p IH]; simpl; intros H; [exact H|].
  inversion H. auto.
Qed.

(** X12: the node names the window keeps are told apart by the clock:
    two runs of [play()] with a file loaded keep the same node name only
    when the clock read the same, likewise two runs of [record(true)]
    with record topics, and a name kept by [play()] is never one kept by
    [record(true)]. *)
Theorem node_names_distinct (a b : N) (st1 st2 : Impl) :
  isEmpty (filePath st1) = false ->
  isEmpty (filePath st2) = false ->
  recordTree st1 <> [] ->
  recordTree st2 <> [] ->
  exists p1 p2 r1 r2,
    play a st1 = Done p1 /\
    play b st2 = Done p2 /\
    record_slot a true st1 = Done r1 /\
    record_slot b true st2 = Done r2 /\
    (playNode p1 = playNode p2 -> a = b) /\
    (recordNode r1 = recordNode r2 -> a = b) /\
    playNode p1 <> recordNode r2 /\
    playNode p2 <> recordNode r1.
Proof.
  intros Hf1 Hf2 Hr1 Hr2.
  rewrite (play_starts_player_aux a st1 Hf1).
  rewrite (play_starts_player_aux b st2 Hf2).
  rewrite (record_starts_recorder_aux a st1 Hr1).
  rewrite (record_starts_recorder_aux b st2 Hr2).
  eexists. eexists. eexists. eexists.
  split; [reflexivity|]. split; [reflexivity|].
  split; [reflexivity|]. split; [reflexivity|].
  cbn [playNode recordNode set_is_playing set_is_recording set_started
       set_playNode set_recordNode].
  split; [|split; [|split]].
  - intros H. apply append_inj_l in H. now apply decimal_inj.
  - intros H. apply append_inj_l in H. now apply decimal_inj.
  - discriminate.
  - discriminate.
Qed.

Lemma node_names_distinct_witness :
  isEmpty (filePath both_running) = false /\
  recordTree both_running <> [] /\
  exists p1 p2 r1 r2,
    play 1 both_running = Done p1 /\
    play 2 both_running = Done p2 /\
    record_slot 1 true both_running = Done r1 /\
    record_slot 2 true both_running = Done r2 /\
    (playNode p1 = playNode p2 -> 1%N = 2%N) /\
    (recordNode r1 = recordNode r2 -> 1%N = 2%N) /\
    playNode p1 <> recordNode r2 /\
    playNode p2 <> recordNode r1.
Proof.
  assert (H : recordTree both_running <> []) by discriminate.
  split; [reflexivity|]. split; [exact H|].
  exact (node_names_distinct 1 2 both_running both_running
           eq_refl eq_refl H H).
Defined.

(** X13: the play action while playing does not stop the running player:
    it starts a second one and overwrites the node name, so a stop after
    it kills the second player only; the first, of another clock reading,
    is never killed. *)
Theorem play_while_playing_orphans (t0 now : N) (st st1 : Impl) :
  is_playing st = true ->
  playNode st = "play_" ++ decimal t0 ->
  now <> t0 ->
  isEmpty (filePath st) = false ->
  clickPlay now st = Done st1 ->
  exists st2,
    started st1 = started st << play_process now st1 /\
    stop st1 = Done st2 /\
    is_playing st2 = false /\
    started st2
    = started st << play_process now st1 << kill ("play_" ++ decimal now) /\
    kill ("play_" ++ decimal now) <> kill (playNode st).
Proof.
  intros Hon Hnode Hne Hpath Hrun. unfold clickPlay in Hrun.
  destruct (timeSpin_setValue 0 st) as [mid| | |] eqn:Hmid;
    try discriminate Hrun.
  cbn [bind] in Hrun.
  assert (Hframe : filePath mid = filePath st /\ started mid = started st).
  { unfold timeSpin_setValue, on_timeSpin_valueChanged, int_sub,
      double_to_int, bind in Hmid.
    split_inner Hmid; inversion Hmid; split; reflexivity. }
  destruct Hframe as [Hfp Hst].
  rewrite play_starts_player_aux in Hrun by (rewrite Hfp; exact Hpath).
  inversion Hrun; subst st1. unfold stop. fields.
  eexists. rewrite Hst.
  split; [reflexivity|]. split; [reflexivity|]. split; [reflexivity|].
  split; [reflexivity|].
  rewrite Hnode. unfold kill. intros H. inversion H as [Hd].
  apply Hne. now apply decimal_inj.
Qed.

Lemma play_while_playing_orphans_witness :
  is_playing both_running = true /\
  playNode both_running = "play_" ++ decimal 2 /\
  5%N <> 2%N /\
  isEmpty (filePath both_running) = false /\
  clickPlay 5 both_running = Done played_twice /\
  exists st2,
    started played_twice = started both_running << play_process 5 played_twice /\
    stop played_twice = Done st2 /\
    is_playing st2 = false /\
    started st2
    = started both_running << play_process 5 played_twice
        << kill ("play_" ++ decimal 5) /\
    kill ("play_" ++ decimal 5) <> kill (playNode both_running).
Proof.
  assert (H : 5%N <> 2%N) by discriminate.
  split; [reflexivity|]. split; [reflexivity|]. split; [exact H|].
  split; [reflexivity|]. split; [reflexivity|].
  exact (play_while_playing_orphans 2 5 both_running played_twice
           eq_refl eq_refl H eq_refl eq_refl).
Defined.

(** X14: the two sessions are independent. An event other than the record
    and stop actions leaves the record action, the recording flag and the
    record node name as they are; an event other than open, save, play,
    pause and stop leaves the playing flag and the play node name as they
    are. *)
Theorem sessions_independent (ev : Event) (st st' : Impl) :
  handle ev st = Done st' ->
  (touches_record ev = false ->
   recordAct st' = recordAct st /\
   is_recording st' = is_recording st /\
   recordNode st' = recordNode st) /\
  (touches_play ev = false ->
   is_playing st' = is_playing st /\
   playNode st' = playNode st).
Proof.
  intros H. split; intros Hev.
  - destruct ev; try discriminate Hev;
      unfold_slots H; split_inner H; inversion H; repeat split.
  - destruct ev; try discriminate Hev;
      unfold_slots H; split_inner H; inversion H; repeat split.
Qed.

Lemma sessions_independent_witness :
  handle (RecordTriggered 9) both_running
  = Done (set_is_recording false
            (set_started
               (started both_running << kill (recordNode both_running))
               (set_recordAct false both_running))) /\
  (touches_play (RecordTriggered 9) = false ->
   is_playing
     (set_is_recording false
        (set_started (started both_running << kill (recordNode both_running))
           (set_recordAct false both_running)))
   = is_playing both_running /\
   playNode
     (set_is_recording false
        (set_started (started both_running << kill (recordNode both_running))
           (set_recordAct false both_running)))
   = playNode both_running).
Proof.
  split; [reflexivity|].
  apply (sessions_independent (RecordTriggered 9) both_running). reflexivity.
Defined.

(** ** Open and save dialogs *)

(** X15: a cancelled open or save dialog leaves the poll timer stopped:
    [open()] and [save()] stop the timer, return early on an empty file
    name and do not start it again, so no timer event can occur in the
    state they leave, and the record topics are not refreshed. Playback
    is stopped all the same. *)
Theorem cancelled_dialog_stops_timer (bag : option View) (st : Impl) :
  exists st1 st2,
    open "" bag st = Done st1 /\
    save "" st = Done st2 /\
    st1 = st2 /\
    timer st1 = false /\
    (forall getTopics, enabled (TimerTimeout getTopics) st1 = false) /\
    is_playing st1 = false /\
    playTree st1 = playTree st /\
    filePath st1 = filePath st /\
    started st1
    = (started st ++ if is_playing st then [kill (playNode st)] else [])%list.
Proof.
  unfold open, save, stop, kill.
  destruct (is_playing st) eqn:Hon; cbn [bind isEmpty]; eexists; eexists;
    repeat split; fields; rewrite ?app_nil_r; auto.
Qed.

(** X16: [save()] with a file name chosen stops playback first and then
    filters: it starts the kill of the play node if the window was
    playing, then [rosbag filter] from the loaded file to the chosen one
    if the play tree has items; it leaves the window not playing and the
    timer running. *)
Theorem save_stops_then_filters (fileName : string) (st : Impl) :
  isEmpty fileName = false ->
  exists st',
    save fileName st = Done st' /\
    is_playing st' = false /\
    timer st' = true /\
    started st'
    = (started st
       ++ (if is_playing st then [kill (playNode st)] else [])
       ++ (match playTree st with
           | [] => []
           | _ :: _ => [filter_process fileName st]
           end))%list.
Proof.
  intros Hname. unfold save, stop, saveFile, kill, filter_process.
  destruct (is_playing st) eqn:Hon; cbn [bind]; rewrite Hname; fields;
    destruct (playTree st) as [|item rest] eqn:Htree;
    unfold topLevelItemCount; cbn [List.length];
    try change (0 <? Z.of_nat 0) with false;
    try change (0 <? Z.of_nat (S (List.length rest))) with true;
    cbn [bind]; eexists; (split; [reflexivity|]); fields;
    rewrite ?Hon, ?Htree, ?app_nil_r, <- ?app_assoc; repeat split.
Qed.

Lemma save_stops_then_filters_witness :
  isEmpty "/out.bag" = false /\
  exists st',
    save "/out.bag" both_running = Done st' /\
    is_playing st' = false /\
    timer st' = true /\
    started st'
    = (started both_running
       ++ (if is_playing both_running
           then [kill (playNode both_running)] else [])
       ++ (match playTree both_running with
           | [] => []
           | _ :: _ => [filter_process "/out.bag" both_running]
           end))%list.
Proof.
  split; [reflexivity|].
  exact (save_stops_then_filters "/out.bag" both_running eq_refl).
Defined.

(** X17: when some play topic is checked, the expression [saveFile] hands
    to [rosbag filter] is [topic == ] followed by the quoted names of the
    checked topics joined by [ or ]: the comparison is written for the
    first name only. *)
Theorem saveFile_expression (fileName : string) (st : Impl) :
  checked_names (playTree st) <> [] ->
  saveFile fileName st
  = Done (startDetached "rosbag"
            [Text "filter"; Text (filePath st); Text fileName;
             Text ("topic == " ++ or_chain (checked_names (playTree st)))]
            st).
Proof.
  intros Hne. unfold saveFile.
  rewrite (filter_option_or_chain _ Hne).
  destruct (playTree st) as [|item rest]; [contradiction Hne; reflexivity|].
  reflexivity.
Qed.

Lemma saveFile_expression_witness :
  checked_names (playTree two_of_three_selected) <> [] /\
  saveFile "/out.bag" two_of_three_selected
  = Done (startDetached "rosbag"
            [Text "filter"; Text (filePath two_of_three_selected);
             Text "/out.bag";
             Text ("topic == "
                   ++ or_chain (checked_names (playTree two_of_three_selected)))]
            two_of_three_selected).
Proof.
  assert (H : checked_names (playTree two_of_three_selected) <> [])
    by discriminate.
  split; [exact H|].
  exact (saveFile_expression "/out.bag" two_of_three_selected H).
Defined.

Lemma append_clauses_none (items : list QTreeWidgetItem) (option : string) :
  none_checked items = true -> append_clauses items option = option.
Proof.
  revert option. induction items as [|item rest IH]; intros option H.
  - reflexivity.
  - cbn [none_checked forallb] in H. apply andb_true_iff in H.
    destruct H as [H1 H2]. cbn [append_clauses].
    destruct (checkState item); [discriminate H1|]. now apply IH.
Qed.

(** X18: when the play tree has items and none is checked, [saveFile]
    still starts [rosbag filter]; the four characters it chops are taken
    off [topic == ] itself and the expression is [topic]. *)
Theorem saveFile_none_checked (fileName : string) (st : Impl) :
  playTree st <> [] ->
  none_checked (playTree st) = true ->
  saveFile fileName st
  = Done (startDetached "rosbag"
            [Text "filter"; Text (filePath st); Text fileName; Text "topic"]
            st).
Proof.
  intros Hne Hnone. unfold saveFile, filter_option.
  rewrite (append_clauses_none _ _ Hnone).
  destruct (playTree st) as [|item rest]; [contradiction Hne; reflexivity|].
  reflexivity.
Qed.

Lemma saveFile_none_checked_witness :
  playTree loaded_none_selected <> [] /\
  none_checked (playTree loaded_none_selected) = true /\
  saveFile "/out.bag" loaded_none_selected
  = Done (startDetached "rosbag"
            [Text "filter"; Text (filePath loaded_none_selected);
             Text "/out.bag"; Text "topic"]
            loaded_none_selected).
Proof.
  assert (H : playTree loaded_none_selected <> []) by discriminate.
  split; [exact H|]. split; [reflexivity|].
  exact (saveFile_none_checked "/out.bag" loaded_none_selected H eq_refl).
Defined.

(** ** Check all and uncheck all *)

Lemma checked_names_setCheckState (b : bool) (tree : list QTreeWidgetItem) :
  map text (map (setCheckState b) tree) = map text tree /\
  checked_names (map (setCheckState b) tree)
  = if b then map text tree else [].
Proof.
  unfold checked_names.
  induction tree as [|item rest [IH1 IH2]]; [destruct b; split; reflexivity|].
  cbn [map]. split.
  - cbn [setCheckState text]. now rewrite IH1.
  - destruct b; cbn [filter setCheckState checkState map text] in *;
      now rewrite IH2.
Qed.

(** X19: check all and uncheck all keep the topics of a tree and their
    order and set every item: after check all the checked names are all
    the names, after uncheck all there are none. This holds for the play
    tree and for the record tree, and nothing is started. *)
Theorem check_all_sets_every_item (b : bool) (st : Impl) :
  exists st1 st2,
    checkPlay b st = Done st1 /\
    checkRecord b st = Done st2 /\
    map text (playTree st1) = map text (playTree st) /\
    checked_names (playTree st1) = (if b then map text (playTree st) else []) /\
    map text (recordTree st2) = map text (recordTree st) /\
    checked_names (recordTree st2)
    = (if b then map text (recordTree st) else []) /\
    started st1 = started st /\
    started st2 = started st.
Proof.
  unfold checkPlay, checkRecord. eexists. eexists.
  split; [reflexivity|]. split; [reflexivity|]. fields.
  destruct (checked_names_setCheckState b (playTree st)) as [H1 H2].
  destruct (checked_names_setCheckState b (recordTree st)) as [H3 H4].
  repeat split; assumption.
Qed.

(** ** The duration shown after open *)

Lemma round2_nonpositive (x : Q) : (x <= 0)%Q -> (round2 x <= 0)%Q.
Proof.
  intros Hx. unfold round2.
  assert (Hk : Qfloor (x * 100 + (1 # 2)) <= 0).
  { change 0 with (Qfloor (1 # 2)). apply Qfloor_resp_le. lra. }
  set (k := Qfloor (x * 100 + (1 # 2))) in *. clearbody k.
  unfold Qle. cbn. lia.
Qed.

Lemma round2_large (x : Q) : (9999 <= x)%Q -> (9999 <= round2 x)%Q.
Proof.
  intros Hx. unfold round2.
  assert (Hk : 999900 <= Qfloor (x * 100 + (1 # 2))).
  { rewrite <- (Qfloor_Z 999900). apply Qfloor_resp_le.
    change (inject_Z 999900) with 999900%Q. lra. }
  set (k := Qfloor (x * 100 + (1 # 2))) in *. clearbody k.
  unfold Qle. cbn. lia.
Qed.

Lemma spin_value_of_nonpositive (x : Q) :
  (x <= 0)%Q -> QDoubleSpinBox_value x = 0%Q.
Proof.
  intros Hx. unfold QDoubleSpinBox_value, qBound, spin_minimum.
  apply round2_nonpositive in Hx. apply Qle_bool_iff in Hx.
  now rewrite Hx.
Qed.

Lemma spin_value_of_large (x : Q) :
  (9999 <= x)%Q -> QDoubleSpinBox_value x = 9999%Q.
Proof.
  intros Hx. unfold QDoubleSpinBox_value, qBound, spin_minimum, spin_maximum.
  apply round2_large in Hx.
  destruct (Qle_bool (round2 x) 0) eqn:H0.
  - apply Qle_bool_iff in H0. lra.
  - apply Qle_bool_iff in Hx. now rewrite Hx.
Qed.

(** X20: [open()] shows the duration of the bag in the end spin box and
    sets the begin spin box to 0. For a bag whose end time is not before
    its begin time, and whose duration [ros::Duration] can hold, the end
    spin box holds a value between 0 and 9999: within a hundredth of a
    second of the duration when that is at most 9999 s, 0 when the bag
    has no duration, 9999 when the duration is 9999 s or more. The bound
    of a hundredth leaves room for the rounding of doubles. *)
Theorem open_shows_duration (fileName : string) (view : View) (st : Impl) :
  isEmpty fileName = false ->
  getBeginTime view <= getEndTime view ->
  getEndTime view - getBeginTime view <= INT_MAX * 1000000000 ->
  exists st',
    open fileName (Some view) st = Done st' /\
    beginTimeSpin st' = 0%Q /\
    (0 <= endTimeSpin st' <= 9999)%Q /\
    (getEndTime view <= getBeginTime view + 9999 * 1000000000 ->
     (Qabs (endTimeSpin st'
            - toSec_diff (getEndTime view) (getBeginTime view)) <= 1 # 100)%Q) /\
    (getEndTime view = getBeginTime view -> endTimeSpin st' = 0%Q) /\
    (getBeginTime view + 9999 * 1000000000 <= getEndTime view ->
     endTimeSpin st' = 9999%Q).
Proof.
  intros Hname Horder _. unfold open, stop, loadFile.
  set (d := toSec_diff (getEndTime view) (getBeginTime view)).
  assert (Hd : (0 <= d)%Q) by (unfold d, toSec_diff, Qle; cbn; lia).
  destruct (is_playing st); cbn [bind]; rewrite Hname; cbn [bind]; fields;
    fold d; eexists; (split; [reflexivity|]); fields;
    (split; [reflexivity|]);
    (split; [apply (spin_value_range _ (spin_value_intro d))|]);
    (split; [|split]); intros H.
  all: try (apply Qle_trans with (1 # 200)%Q; [|discriminate];
            apply spin_value_close; split; [exact Hd|];
            unfold d, toSec_diff, spin_maximum, Qle; cbn; lia).
  all: try (apply spin_value_of_nonpositive;
            unfold d, toSec_diff, Qle; cbn; lia).
  all: apply spin_value_of_large; unfold d, toSec_diff, Qle; cbn; lia.
Qed.

Lemma open_shows_duration_witness :
  isEmpty "/b.bag" = false /\
  getBeginTime ten_seconds <= getEndTime ten_seconds /\
  getEndTime ten_seconds - getBeginTime ten_seconds <= INT_MAX * 1000000000 /\
  exists st',
    open "/b.bag" (Some ten_seconds) init = Done st' /\
    beginTimeSpin st' = 0%Q /\
    (0 <= endTimeSpin st' <= 9999)%Q /\
    (getEndTime ten_seconds <= getBeginTime ten_seconds + 9999 * 1000000000 ->
     (Qabs (endTimeSpin st'
            - toSec_diff (getEndTime ten_seconds) (getBeginTime ten_seconds))
      <= 1 # 100)%Q) /\
    (getEndTime ten_seconds = getBeginTime ten_seconds ->
     endTimeSpin st' = 0%Q) /\
    (getBeginTime ten_seconds + 9999 * 1000000000 <= getEndTime ten_seconds ->
     endTimeSpin st' = 9999%Q).
Proof.
  assert (H1 : getBeginTime ten_seconds <= getEndTime ten_seconds)
    by (vm_compute; discriminate).
  assert (H2 : getEndTime ten_seconds - getBeginTime ten_seconds
               <= INT_MAX * 1000000000)
    by (vm_compute; discriminate).
  split; [reflexivity|]. split; [exact H1|]. split; [exact H2|].
  exact (open_shows_duration "/b.bag" ten_seconds init eq_refl H1 H2).
Defined.

(** ** Play from the start *)

Lemma timeSpin_setValue_zero (st mid : Impl) :
  timeSpin_setValue 0 st = Done mid ->
  (timeSpin mid == 0)%Q /\
  filePath mid = filePath st /\
  started mid = started st /\
  playTree mid = playTree st.
Proof.
  unfold timeSpin_setValue. change (QDoubleSpinBox_value 0) with 0%Q.
  intros H. destruct (Qeq_bool 0 (timeSpin st)) eqn:Heq.
  - inversion H; subst mid. apply Qeq_bool_iff in Heq.
    repeat split. symmetry. exact Heq.
  - unfold on_timeSpin_valueChanged, int_sub, double_to_int, bind in H.
    split_inner H; inversion H; repeat split; reflexivity.
Qed.

(** X21: when the play action returns with a file loaded, the position is
    0 and the player was started there: [clickPlay()] resets the time
    spin box before [play()] reads it as start time. *)
Theorem clickPlay_starts_at_zero (now : N) (st st' : Impl) :
  isEmpty (filePath st) = false ->
  clickPlay now st = Done st' ->
  (timeSpin st' == 0)%Q /\
  is_playing st' = true /\
  started st' = started st << play_process now st' /\
  In (Number (timeSpin st')) (arguments (play_process now st')).
Proof.
  intros Hpath H. unfold clickPlay in H.
  destruct (timeSpin_setValue 0 st) as [mid| | |] eqn:Hmid;
    try discriminate H.
  cbn [bind] in H.
  destruct (timeSpin_setValue_zero st mid Hmid) as (Hts & Hfp & Hst & _).
  rewrite play_starts_player_aux in H by (rewrite Hfp; exact Hpath).
  inversion H; subst st'. fields.
  split; [exact Hts|]. split; [reflexivity|].
  split; [rewrite Hst; reflexivity|].
  unfold play_process, play_options. cbn [arguments]. fields.
  apply in_or_app. left. apply in_or_app. right.
  apply in_or_app. right. apply in_or_app. left.
  cbn. auto.
Qed.

Lemma clickPlay_starts_at_zero_witness :
  isEmpty (filePath both_running) = false /\
  clickPlay 5 both_running = Done played_twice /\
  (timeSpin played_twice == 0)%Q /\
  is_playing played_twice = true /\
  started played_twice = started both_running << play_process 5 played_twice /\
  In (Number (timeSpin played_twice)) (arguments (play_process 5 played_twice)).
Proof.
  split; [reflexivity|]. split; [reflexivity|].
  exact (clickPlay_starts_at_zero 5 both_running played_twice
           eq_refl eq_refl).
Defined.

(** ** A file is loaded *)

Lemma map_not_nil {A B : Type} (f : A -> B) (l : list A) :
  map f l <> [] -> l <> [].
Proof. destruct l; [intros H; contradiction H; reflexivity | discriminate]. Qed.

Lemma click_item_not_nil (i : nat) (tree : list QTreeWidgetItem) :
  click_item i tree <> [] -> tree <> [].
Proof.
  destruct tree; [destruct i; intros H; contradiction H; reflexivity|].
  discriminate.
Qed.

Lemma handle_file_inv (ev : Event) (st st' : Impl) :
  handle ev st = Done st' -> file_inv st -> file_inv st'.
Proof.
  unfold file_inv. intros H [Hplay Htree].
  destruct ev; unfold_slots H; fields_in H; split_inner H; inversion H;
    subst; fields; split; intros Hx;
    try discriminate Hx; try (now apply Hplay); try (now apply Htree);
    try assumption;
    try (apply negb_true_iff; assumption);
    try (apply Htree; now apply map_not_nil in Hx);
    try (apply Htree; now apply click_item_not_nil in Hx);
    try congruence.
Qed.

Lemma reachable_file_inv (st : Impl) : reachable st -> file_inv st.
Proof.
  induction 1 as [|ev st st' _ IH _ Hstep].
  - split; [discriminate | intros H; contradiction H; reflexivity].
  - exact (handle_file_inv ev st st' Hstep IH).
Qed.

(** X22: in every reachable state, a window that is playing or shows play
    topics has a file loaded: its file path is not empty. So the player
    and the filter are never started without a source file. *)
Theorem playing_needs_file (st : Impl) :
  reachable st ->
  (is_playing st = true -> isEmpty (filePath st) = false) /\
  (playTree st <> [] -> isEmpty (filePath st) = false).
Proof. exact (reachable_file_inv st). Qed.

Lemma playing_needs_file_witness :
  reachable both_running /\
  is_playing both_running = true /\
  (is_playing both_running = true -> isEmpty (filePath both_running) = false) /\
  (playTree both_running <> [] -> isEmpty (filePath both_running) = false).
Proof.
  split; [exact both_running_reachable|]. split; [reflexivity|].
  exact (playing_needs_file both_running both_running_reachable).
Defined.

(** ** Position and slider in a reachable window *)

Local Open Scope Q_scope.

Lemma round2_mono (x y : Q) : x <= y -> round2 x <= round2 y.
Proof.
  intros Hxy. unfold round2.
  assert (Hk : (Qfloor (x * 100 + (1 # 2)) <= Qfloor (y * 100 + (1 # 2)))%Z)
    by (apply Qfloor_resp_le; lra).
  set (k := Qfloor (x * 100 + (1 # 2))) in *. clearbody k.
  set (l := Qfloor (y * 100 + (1 # 2))) in *. clearbody l.
  unfold Qle. cbn. lia.
Qed.

Lemma qBound_mono (lo hi x y : Q) :
  lo <= hi -> x <= y -> qBound lo x hi <= qBound lo y hi.
Proof.
  intros Hle Hxy. unfold qBound.
  destruct (Qle_bool x lo) eqn:H1; destruct (Qle_bool y lo) eqn:H2;
    destruct (Qle_bool hi x) eqn:H3; destruct (Qle_bool hi y) eqn:H4;
    try apply Qle_bool_iff in H1; try apply Qle_bool_iff in H2;
    try apply Qle_bool_iff in H3; try apply Qle_bool_iff in H4;
    try (assert (~ x <= lo) by (intros Hc; apply Qle_bool_iff in Hc; congruence));
    try (assert (~ y <= lo) by (intros Hc; apply Qle_bool_iff in Hc; congruence));
    try (assert (~ hi <= x) by (intros Hc; apply Qle_bool_iff in Hc; congruence));
    try (assert (~ hi <= y) by (intros Hc; apply Qle_bool_iff in Hc; congruence));
    lra.
Qed.

Lemma QDoubleSpinBox_value_mono (x y : Q) :
  x <= y -> QDoubleSpinBox_value x <= QDoubleSpinBox_value y.
Proof.
  intros Hxy. unfold QDoubleSpinBox_value.
  apply qBound_mono; [discriminate | now apply round2_mono].
Qed.

Lemma Qfloor_hundredths (k : Z) : Qfloor ((k # 100) * 100 + (1 # 2)) = k.
Proof.
  unfold Qfloor. cbn. symmetry. apply Z.div_unique with 100%Z; lia.
Qed.

(** Every spin box value is a number of hundredths. *)
Lemma spin_value_hundredths (q : Q) :
  spin_value q -> exists k : Z, (0 <= k <= 999900)%Z /\ q == k # 100.
Proof.
  intros [x Hx]. subst q.
  unfold QDoubleSpinBox_value, qBound, spin_minimum, spin_maximum.
  destruct (Qle_bool (round2 x) 0) eqn:H1.
  - exists 0%Z. split; [lia | reflexivity].
  - destruct (Qle_bool 9999 (round2 x)) eqn:H2.
    + exists 999900%Z. split; [lia | reflexivity].
    + unfold round2 in *.
      set (k := Qfloor (x * 100 + (1 # 2))) in *. clearbody k.
      exists k. split; [|reflexivity].
      assert (Hn1 : ~ (k # 100) <= 0)
        by (intros Hc; apply Qle_bool_iff in Hc; congruence).
      assert (Hn2 : ~ 9999 <= (k # 100))
        by (intros Hc; apply Qle_bool_iff in Hc; congruence).
      unfold Qle in Hn1, Hn2. cbn in Hn1, Hn2. lia.
Qed.

(** Setting a spin box to a value it holds gives that value. *)
Lemma QDoubleSpinBox_value_fixed (q : Q) :
  spin_value q -> QDoubleSpinBox_value q == q.
Proof.
  intros Hq. destruct (spin_value_hundredths q Hq) as [k [Hk Heq]].
  unfold QDoubleSpinBox_value, round2.
  rewrite Heq at 1. rewrite Qfloor_hundredths.
  unfold qBound, spin_minimum, spin_maximum.
  destruct (Qle_bool (k # 100) 0) eqn:H1.
  - apply Qle_bool_iff in H1. rewrite Heq.
    unfold Qle in H1. cbn in H1. unfold Qeq. cbn. lia.
  - destruct (Qle_bool 9999 (k # 100)) eqn:H2.
    + apply Qle_bool_iff in H2. rewrite Heq.
      unfold Qle in H2. cbn in H2. unfold Qeq. cbn. lia.
    + symmetry. exact Heq.
Qed.

Local Close Scope Q_scope.

(** Equal arguments give the same spin box value. *)
Lemma QDoubleSpinBox_value_comp (x y : Q) :
  (x == y)%Q -> QDoubleSpinBox_value x = QDoubleSpinBox_value y.
Proof.
  intros Hxy. unfold QDoubleSpinBox_value, round2.
  assert (Hf : Qfloor (x * 100 + (1 # 2)) = Qfloor (y * 100 + (1 # 2)))
    by (apply Qfloor_comp; rewrite Hxy; reflexivity).
  rewrite Hf. reflexivity.
Qed.

(** X23: moving the slider in a reachable window sets the position near
    the slider's share of the duration: the slider holds the value it was
    moved to; the position is between 0 and the duration shown in the end
    spin box and within a hundredth of a second of the share; it is 0 for
    the slider at 0 and the duration for the slider at 100; nothing is
    started. The bound of a hundredth leaves room for the rounding of
    doubles. *)
Theorem slider_move_sets_position (v : Z) (st : Impl) :
  reachable st ->
  enabled (TimeSliderMoved v) st = true ->
  v <> value (timeSlider st) ->
  exists st',
    handle (TimeSliderMoved v) st = Done st' /\
    value (timeSlider st') = v /\
    (0 <= timeSpin st' <= endTimeSpin st)%Q /\
    (Qabs (timeSpin st' - endTimeSpin st * (inject_Z v / 100)) <= 1 # 100)%Q /\
    (v = 0 -> (timeSpin st' == 0)%Q) /\
    (v = 100 -> (timeSpin st' == endTimeSpin st)%Q) /\
    endTimeSpin st' = endTimeSpin st /\
    started st' = started st.
Proof.
  intros Hreach Hen Hne.
  pose proof (reachable_widgets_inv st Hreach) as Hinv.
  destruct Hinv as (Hmin & Hmax & Hval & Hbegin & Hend & Hts).
  cbn [enabled] in Hen. rewrite Hmin, Hmax in Hen.
  apply andb_true_iff in Hen. destruct Hen as [H1 H2].
  apply Z.leb_le in H1. apply Z.leb_le in H2.
  cbn [handle]. destruct (Z.eqb_spec v (value (timeSlider st))) as [He|_];
    [contradiction|].
  rewrite on_timeSlider_valueChanged_returns.
  2:{ unfold widgets_inv. fields. rewrite Hmin, Hmax.
      repeat split; try assumption; lia. }
  set (d := endTimeSpin st) in *.
  set (x := ((d - 0) * (inject_Z v / inject_Z 100))%Q).
  assert (Hd : (0 <= d <= 9999)%Q) by apply (spin_value_range _ Hend).
  assert (Hv0 : (0 <= inject_Z v)%Q)
    by (change 0%Q with (inject_Z 0); rewrite <- Zle_Qle; exact H1).
  assert (Hv1 : (inject_Z v <= 100)%Q)
    by (change 100%Q with (inject_Z 100); rewrite <- Zle_Qle; exact H2).
  assert (Hx : (x == d * (inject_Z v / 100))%Q)
    by (unfold x; change (inject_Z 100) with 100%Q; field).
  assert (Hr : (inject_Z v / 100 <= 1)%Q)
    by (apply Qle_shift_div_r; [reflexivity | lra]).
  assert (Hr0 : (0 <= inject_Z v / 100)%Q)
    by (apply Qle_shift_div_l; [reflexivity | lra]).
  assert (Hx0 : (0 <= x)%Q) by (rewrite Hx; nra).
  assert (Hxd : (x <= d)%Q) by (rewrite Hx; nra).
  eexists. split; [reflexivity|]. fields. rewrite Hmin, Hmax. fold d. fold x.
  split; [lia|].
  split.
  { split.
    - apply (spin_value_range _ (spin_value_intro x)).
    - apply Qle_trans with (QDoubleSpinBox_value d).
      + apply QDoubleSpinBox_value_mono, Hxd.
      + rewrite (QDoubleSpinBox_value_fixed d Hend). apply Qle_refl. }
  split.
  { rewrite <- Hx. apply Qle_trans with (1 # 200)%Q; [|discriminate].
    apply spin_value_close. unfold spin_minimum, spin_maximum. lra. }
  split.
  { intros Hv. assert (Hz : (x == 0)%Q) by (rewrite Hx, Hv; field).
    rewrite (QDoubleSpinBox_value_comp x 0 Hz). reflexivity. }
  split.
  { intros Hv. assert (Hz : (x == d)%Q) by (rewrite Hx, Hv; field).
    rewrite (QDoubleSpinBox_value_comp x d Hz).
    apply (QDoubleSpinBox_value_fixed d Hend). }
  split; reflexivity.
Qed.

Lemma position_five_reachable : reachable position_five.
Proof.
  apply (run_reachable to_position_five init);
    [apply reachable_init | reflexivity].
Qed.

Lemma slider_move_sets_position_witness :
  reachable position_five /\
  enabled (TimeSliderMoved 25) position_five = true /\
  25 <> value (timeSlider position_five) /\
  exists st',
    handle (TimeSliderMoved 25) position_five = Done st' /\
    value (timeSlider st') = 25 /\
    (0 <= timeSpin st' <= endTimeSpin position_five)%Q /\
    (Qabs (timeSpin st' - endTimeSpin position_five * (inject_Z 25 / 100))
     <= 1 # 100)%Q /\
    (25 = 0 -> (timeSpin st' == 0)%Q) /\
    (25 = 100 -> (timeSpin st' == endTimeSpin position_five)%Q) /\
    endTimeSpin st' = endTimeSpin position_five /\
    started st' = started position_five.
Proof.
  assert (H : 25 <> value (timeSlider position_five)) by discriminate.
  split; [exact position_five_reachable|]. split; [reflexivity|].
  split; [exact H|].
  exact (slider_move_sets_position 25 position_five
           position_five_reachable eq_refl H).
Defined.

(** X24: in a reachable window with a duration above zero, a change of
    the position by a hundredth of a second or more (an edit of the time
    spin box or a clock message) to a value [x] between 0 and 9999 is
    taken: the position is then within a hundredth of [x], and the slider,
    between 0 and 100, stands at most one unit below the position's share
    of the duration in hundredths and never above it; it stands at 100
    when the position has reached the duration. Nothing is started. The
    bounds leave room for the rounding of doubles. *)
Theorem position_change_sets_slider (x : Q) (st : Impl) :
  reachable st ->
  (0 < endTimeSpin st)%Q ->
  (0 <= x <= 9999)%Q ->
  (1 # 100 <= Qabs (x - timeSpin st))%Q ->
  exists st',
    timeSpin_setValue x st = Done st' /\
    (Qabs (timeSpin st' - x) <= 1 # 100)%Q /\
    0 <= value (timeSlider st') <= 100 /\
    (inject_Z (value (timeSlider st'))
     <= 100 * (timeSpin st' / endTimeSpin st))%Q /\
    ((100 * (timeSpin st' / endTimeSpin st) <= 100)%Q ->
     (100 * (timeSpin st' / endTimeSpin st) - 1
      <= inject_Z (value (timeSlider st')))%Q) /\
    ((100 <= 100 * (timeSpin st' / endTimeSpin st))%Q ->
     value (timeSlider st') = 100) /\
    endTimeSpin st' = endTimeSpin st /\
    started st' = started st.
Proof.
  intros Hreach Hpos Hx Hfar.
  pose proof (reachable_widgets_inv st Hreach) as Hinv.
  pose proof (spin_value_close x Hx) as Hclose.
  assert (Hne : ~ (QDoubleSpinBox_value x == timeSpin st)%Q).
  { intros Heq. rewrite Heq in Hclose.
    assert (Hsym : (Qabs (x - timeSpin st) == Qabs (timeSpin st - x))%Q).
    { rewrite <- (Qabs_opp (x - timeSpin st)).
      apply Qabs_wd. ring. }
    rewrite Hsym in Hfar.
    assert (Hc : (1 # 100 <= 1 # 200)%Q) by (eapply Qle_trans; eassumption).
    apply Hc. reflexivity. }
  unfold timeSpin_setValue.
  destruct (Qeq_bool _ _) eqn:Heq;
    [apply Qeq_bool_iff in Heq; contradiction|].
  set (p := QDoubleSpinBox_value x) in *.
  assert (Hp : (0 <= p <= 9999)%Q)
    by apply (spin_value_range _ (spin_value_intro x)).
  rewrite on_timeSpin_valueChanged_returns.
  - eexists. split; [reflexivity|]. fields.
    set (d := endTimeSpin st) in *.
    assert (Hq : (inject_Z 100 * (p / (d - 0)) == 100 * (p / d))%Q)
      by (change (inject_Z 100) with 100%Q; field; lra).
    rewrite (Qfloor_comp _ _ Hq).
    set (q := (100 * (p / d))%Q) in *.
    assert (Hq0 : (0 <= q)%Q).
    { unfold q. assert (Hr : (0 <= p / d)%Q)
        by (apply Qle_shift_div_l; lra). lra. }
    pose proof (Qfloor_le q) as Hlo.
    pose proof (Qlt_floor q) as Hhi.
    assert (Hf0 : 0 <= Qfloor q).
    { change 0 with (Qfloor 0). apply Qfloor_resp_le. exact Hq0. }
    split; [apply Qle_trans with (1 # 200)%Q; [exact Hclose | discriminate]|].
    split; [lia|].
    split.
    { apply Qle_trans with (inject_Z (Qfloor q)); [|exact Hlo].
      rewrite <- Zle_Qle. lia. }
    split.
    { intros Hle.
      assert (Hf : Qfloor q <= 100).
      { rewrite <- (Qfloor_Z 100). apply Qfloor_resp_le. exact Hle. }
      rewrite Z.min_r by exact Hf.
      rewrite inject_Z_plus in Hhi. change (inject_Z 1) with 1%Q in Hhi.
      lra. }
    split.
    { intros Hge.
      assert (Hf : 100 <= Qfloor q).
      { rewrite <- (Qfloor_Z 100). apply Qfloor_resp_le. exact Hge. }
      lia. }
    split; reflexivity.
  - destruct Hinv as (Hmin & Hmax & Hval & Hbegin & Hend & Hts).
    unfold widgets_inv. fields.
    split; [exact Hmin|]. split; [exact Hmax|]. split; [exact Hval|].
    split; [exact Hbegin|]. split; [exact Hend|]. apply spin_value_intro.
  - exact Hpos.
  - exact Hp.
Qed.

Lemma position_change_sets_slider_witness :
  reachable position_five /\
  (0 < endTimeSpin position_five)%Q /\
  (0 <= 314 # 100 <= 9999)%Q /\
  (1 # 100 <= Qabs ((314 # 100) - timeSpin position_five))%Q /\
  exists st',
    timeSpin_setValue (314 # 100) position_five = Done st' /\
    (Qabs (timeSpin st' - (314 # 100)) <= 1 # 100)%Q /\
    0 <= value (timeSlider st') <= 100 /\
    (inject_Z (value (timeSlider st'))
     <= 100 * (timeSpin st' / endTimeSpin position_five))%Q /\
    ((100 * (timeSpin st' / endTimeSpin position_five) <= 100)%Q ->
     (100 * (timeSpin st' / endTimeSpin position_five) - 1
      <= inject_Z (value (timeSlider st')))%Q) /\
    ((100 <= 100 * (timeSpin st' / endTimeSpin position_five))%Q ->
     value (timeSlider st') = 100) /\
    endTimeSpin st' = endTimeSpin position_five /\
    started st' = started position_five.
Proof.
  assert (H1 : (0 < endTimeSpin position_five)%Q) by reflexivity.
  assert (H2 : (0 <= 314 # 100 <= 9999)%Q)
    by (split; vm_compute; discriminate).
  assert (H3 : (1 # 100 <= Qabs ((314 # 100) - timeSpin position_five))%Q)
    by (vm_compute; discriminate).
  split; [exact position_five_reachable|]. split; [exact H1|].
  split; [exact H2|]. split; [exact H3|].
  exact (position_change_sets_slider (314 # 100) position_five
           position_five_reachable H1 H2 H3).
Defined.

(** X25: the position is not bounded by the duration: in a reachable
    window with a duration above zero and the position before the end, a
    clock message a hundredth of a second or more past the end of the
    bag, at a distance from the begin time that [ros::Duration] can hold,
    sets the position at or above the duration (at most 9999) and the
    slider at 100; nothing is started. *)
Theorem clock_past_end (clock : Time) (st : Impl) :
  reachable st ->
  (0 < endTimeSpin st)%Q ->
  (timeSpin st < endTimeSpin st)%Q ->
  (endTimeSpin st + (1 # 100) <= toSec_diff clock (begin_time st))%Q ->
  clock - begin_time st <= INT_MAX * 1000000000 ->
  exists st',
    clockCallback clock st = Done st' /\
    endTimeSpin st' = endTimeSpin st /\
    (endTimeSpin st' <= timeSpin st' <= 9999)%Q /\
    value (timeSlider st') = 100 /\
    started st' = started st.
Proof.
  intros Hreach Hpos Hbefore Hpast _. unfold clockCallback.
  pose proof (reachable_widgets_inv st Hreach) as Hinv.
  set (p := QDoubleSpinBox_value (toSec_diff clock (begin_time st))).
  assert (Hp : (0 <= p <= 9999)%Q)
    by apply (spin_value_range _ (spin_value_intro _)).
  assert (Hdp : (endTimeSpin st <= p)%Q).
  { destruct Hinv as (_ & _ & _ & _ & Hend & _).
    rewrite <- (QDoubleSpinBox_value_fixed (endTimeSpin st) Hend).
    apply QDoubleSpinBox_value_mono. lra. }
  unfold timeSpin_setValue. fold p.
  destruct (Qeq_bool p (timeSpin st)) eqn:Heq;
    [apply Qeq_bool_iff in Heq; lra|].
  rewrite on_timeSpin_valueChanged_returns.
  - eexists. split; [reflexivity|]. fields.
    split; [reflexivity|]. split; [split; [exact Hdp | apply Hp]|].
    split; [|reflexivity].
    assert (Hq : (inject_Z 100 <= inject_Z 100 * (p / (endTimeSpin st - 0)))%Q).
    { change (inject_Z 100) with 100%Q.
      assert (Hr : (1 <= p / (endTimeSpin st - 0))%Q)
        by (apply Qle_shift_div_l; lra).
      lra. }
    apply Qfloor_resp_le in Hq. rewrite Qfloor_Z in Hq. lia.
  - destruct Hinv as (Hmin & Hmax & Hval & Hbegin & Hend & Hts).
    unfold widgets_inv. fields.
    split; [exact Hmin|]. split; [exact Hmax|]. split; [exact Hval|].
    split; [exact Hbegin|]. split; [exact Hend|]. apply spin_value_intro.
  - exact Hpos.
  - exact Hp.
Qed.

Lemma clock_past_end_witness :
  reachable position_five /\
  (0 < endTimeSpin position_five)%Q /\
  (timeSpin position_five < endTimeSpin position_five)%Q /\
  (endTimeSpin position_five + (1 # 100)
   <= toSec_diff 12000000000%Z (begin_time position_five))%Q /\
  12000000000 - begin_time position_five <= INT_MAX * 1000000000 /\
  exists st',
    clockCallback 12000000000 position_five = Done st' /\
    endTimeSpin st' = endTimeSpin position_five /\
    (endTimeSpin st' <= timeSpin st' <= 9999)%Q /\
    value (timeSlider st') = 100 /\
    started st' = started position_five.
Proof.
  assert (H1 : (0 < endTimeSpin position_five)%Q) by reflexivity.
  assert (H2 : (timeSpin position_five < endTimeSpin position_five)%Q)
    by reflexivity.
  assert (H3 : (endTimeSpin position_five + (1 # 100)
                <= toSec_diff 12000000000%Z (begin_time position_five))%Q)
    by (vm_compute; discriminate).
  assert (H4 : 12000000000 - begin_time position_five
               <= INT_MAX * 1000000000)
    by (vm_compute; discriminate).
  split; [exact position_five_reachable|]. split; [exact H1|].
  split; [exact H2|]. split; [exact H3|]. split; [exact H4|].
  exact (clock_past_end 12000000000 position_five
           position_five_reachable H1 H2 H3 H4).
Defined.

(** ** Kills and the nodes they name *)

Lemma snoc_decompose {A : Type} (l pre post : list A) (a b : A) :
  l << a = (pre ++ b :: post)%list ->
  (post = [] /\ l = pre /\ a = b) \/
  (exists post', post = post' << a /\ l = (pre ++ b :: post')%list).
Proof.
  intros H. destruct post as [|z post'] using rev_ind.
  - left. apply app_inj_tail in H. destruct H as [H1 H2]. auto.
  - right. exists post'.
    change (pre ++ b :: post' << z)%list
      with (pre ++ (b :: post') ++ [z])%list in H.
    rewrite app_assoc in H. apply app_inj_tail in H.
    destruct H as [H1 H2]. subst z. auto.
Qed.

Lemma node_started_snoc (x : string) (l : list Process) (p : Process) :
  node_started x l -> node_started x (l << p).
Proof.
  intros [q [Hin Hq]]. exists q. split; [|exact Hq].
  apply in_or_app. now left.
Qed.

Lemma node_started_last (x : string) (l : list Process) (p : Process) :
  named x p -> node_started x (l << p).
Proof.
  intros Hp. exists p. split; [|exact Hp].
  apply in_or_app. right. now left.
Qed.

Lemma kills_snoc_rosbag (l : list Process) (p : Process) :
  kills_follow_starts l -> program p = "rosbag" ->
  kills_follow_starts (l << p).
Proof.
  intros Hl Hp pre x post Heq.
  destruct (snoc_decompose _ _ _ _ _ Heq) as [[_ [_ Hk]]|[post' [_ Hl']]].
  - subst p. discriminate Hp.
  - exact (Hl pre x post' Hl').
Qed.

Lemma kills_snoc_kill (l : list Process) (x : string) :
  kills_follow_starts l -> node_started x l ->
  kills_follow_starts (l << kill x).
Proof.
  intros Hl Hx pre y post Heq.
  destruct (snoc_decompose _ _ _ _ _ Heq) as [[_ [Hpre Hk]]|[post' [_ Hl']]].
  - subst pre. unfold kill in Hk. inversion Hk as [Hxy].
    subst y. exact Hx.
  - exact (Hl pre y post' Hl').
Qed.

Lemma trace_inv_frame (st st' : Impl) :
  trace_fields st' = trace_fields st -> trace_inv st -> trace_inv st'.
Proof.
  unfold trace_fields, trace_inv. intros H.
  inversion H as [[H1 H2 H3 H4 H5]]. rewrite H1, H2, H3, H4, H5. auto.
Qed.

Lemma play_process_named (now : N) (st : Impl) :
  named ("play_" ++ decimal now) (play_process now st).
Proof.
  split; [reflexivity|]. unfold play_process. cbn [arguments].
  eexists. rewrite app_assoc. reflexivity.
Qed.

Lemma record_process_named (now : N) (st : Impl) :
  named ("record_" ++ decimal now) (record_process now st).
Proof.
  split; [reflexivity|]. unfold record_process. cbn [arguments].
  eexists. rewrite app_assoc. reflexivity.
Qed.

Lemma play_trace_inv (now : N) (st st' : Impl) :
  play now st = Done st' -> trace_inv st -> trace_inv st'.
Proof.
  intros H (Hk & Hp & Hr).
  destruct (isEmpty (filePath st)) eqn:Hpath.
  - unfold play in H. rewrite Hpath in H. inversion H; subst st'.
    unfold trace_inv. fields. repeat split; try assumption. discriminate.
  - rewrite (play_starts_player_aux now st Hpath) in H.
    inversion H; subst st'. unfold trace_inv. fields.
    split; [apply kills_snoc_rosbag; [exact Hk | reflexivity]|].
    split; intros Hon.
    + apply node_started_last, play_process_named.
    + apply node_started_snoc, Hr, Hon.
Qed.

Lemma stop_trace_inv (st st' : Impl) :
  stop st = Done st' -> trace_inv st -> trace_inv st'.
Proof.
  unfold stop. intros H (Hk & Hp & Hr).
  destruct (is_playing st) eqn:Hon; inversion H; subst st';
    [|unfold trace_inv; rewrite Hon; auto].
  unfold trace_inv. fields.
  split; [apply (kills_snoc_kill _ (playNode st) Hk), Hp; reflexivity|].
  split; [discriminate|].
  intros Hrec. apply node_started_snoc, Hr, Hrec.
Qed.

Lemma record_trace_inv (now : N) (b : bool) (st st' : Impl) :
  recordAct_setChecked (record_slot now) b st = Done st' ->
  trace_inv st -> trace_inv st'.
Proof.
  unfold recordAct_setChecked, record_slot, trace_inv.
  destruct_Impl st. fields. intros H (Hk & Hp & Hr).
  destruct rtree, ra, b, ir; cbn in H; inversion H; subst st'; fields;
    (split; [|split]); try assumption; try discriminate;
    try (intros _; apply node_started_snoc; auto; fail);
    try (intros Hon; apply node_started_snoc, Hp, Hon);
    try (apply kills_snoc_kill; [assumption | now apply Hr]);
    try (apply kills_snoc_rosbag; [assumption | reflexivity]);
    try (intros _; apply node_started_last; split; [reflexivity|];
         cbn [arguments]; eexists; reflexivity).
Qed.

Lemma saveFile_trace_inv (fileName : string) (st st' : Impl) :
  saveFile fileName st = Done st' -> trace_inv st -> trace_inv st'.
Proof.
  unfold saveFile. intros H (Hk & Hp & Hr).
  destruct (0 <? _); inversion H; subst st';
    [|unfold trace_inv; auto].
  unfold trace_inv. fields.
  split; [apply kills_snoc_rosbag; [exact Hk | reflexivity]|].
  split; intros Hon; apply node_started_snoc; auto.
Qed.

Lemma stop_if_playing_trace_inv (st st' : Impl) :
  (if is_playing st then stop st else Done st) = Done st' ->
  trace_inv st -> trace_inv st'.
Proof.
  intros H Hinv. destruct (is_playing st).
  - exact (stop_trace_inv _ _ H Hinv).
  - inversion H; subst; exact Hinv.
Qed.

Lemma timeSpin_setValue_trace (x : Q) (st st' : Impl) :
  timeSpin_setValue x st = Done st' -> trace_fields st' = trace_fields st.
Proof.
  unfold timeSpin_setValue, on_timeSpin_valueChanged, int_sub,
    double_to_int, bind.
  intros H. split_inner H; inversion H; reflexivity.
Qed.

Lemma handle_trace_inv (ev : Event) (st st' : Impl) :
  handle ev st = Done st' -> trace_inv st -> trace_inv st'.
Proof.
  destruct ev; cbn [handle]; intros H Hinv.
  - unfold open in H.
    destruct (if is_playing st then stop st else Done st)
      as [mid| | |] eqn:Hmid; try discriminate H.
    apply stop_if_playing_trace_inv in Hmid; [|exact Hinv].
    cbn [bind] in H. apply (trace_inv_frame mid); [|exact Hmid].
    unfold loadFile, bind in H. split_inner H; inversion H; reflexivity.
  - unfold save in H.
    destruct (if is_playing st then stop st else Done st)
      as [mid| | |] eqn:Hmid; try discriminate H.
    apply stop_if_playing_trace_inv in Hmid; [|exact Hinv].
    cbn [bind] in H. destruct (isEmpty fileName).
    + inversion H; subst st'. exact Hmid.
    + destruct (saveFile _ _) as [st3| | |] eqn:Hsave; try discriminate H.
      inversion H; subst st'.
      apply (trace_inv_frame st3); [reflexivity|].
      apply (saveFile_trace_inv fileName (set_timer false mid)); [exact Hsave|].
      exact Hmid.
  - exact (record_trace_inv _ _ _ _ H Hinv).
  - unfold clickPlay in H.
    destruct (timeSpin_setValue 0 st) as [mid| | |] eqn:Hmid;
      try discriminate H.
    cbn [bind] in H. apply (play_trace_inv _ _ _ H).
    apply (trace_inv_frame st); [|exact Hinv].
    exact (timeSpin_setValue_trace _ _ _ Hmid).
  - unfold clickResume in H. destruct (is_playing st).
    + exact (stop_trace_inv _ _ H Hinv).
    + exact (play_trace_inv _ _ _ H Hinv).
  - unfold clickStop in H.
    destruct (if is_recording st then _ else _) as [mid| | |] eqn:Hmid;
      try discriminate H.
    cbn [bind] in H. apply (stop_trace_inv mid); [exact H|].
    destruct (is_recording st).
    + exact (record_trace_inv _ _ _ _ Hmid Hinv).
    + inversion Hmid; subst; exact Hinv.
  - apply (trace_inv_frame st); [|exact Hinv].
    unfold config in H. destruct accepted; inversion H; reflexivity.
  - apply (trace_inv_frame st); [|exact Hinv]. inversion H; reflexivity.
  - apply (trace_inv_frame st); [|exact Hinv]. inversion H; reflexivity.
  - apply (trace_inv_frame st); [|exact Hinv]. inversion H; reflexivity.
  - apply (trace_inv_frame st); [|exact Hinv]. inversion H; reflexivity.
  - apply (trace_inv_frame st); [|exact Hinv].
    unfold on_timer_timeout in H.
    destruct getTopics; [destruct (negb _)|]; inversion H; reflexivity.
  - apply (trace_inv_frame st); [|exact Hinv].
    exact (timeSpin_setValue_trace _ _ _ H).
  - apply (trace_inv_frame st); [|exact Hinv].
    destruct (v =? _); [inversion H; reflexivity|].
    unfold on_timeSlider_valueChanged, int_sub, bind in H.
    split_inner H; inversion H; reflexivity.
  - apply (trace_inv_frame st); [|exact Hinv].
    exact (timeSpin_setValue_trace _ _ _ H).
Qed.

Lemma reachable_trace_inv (st : Impl) : reachable st -> trace_inv st.
Proof.
  induction 1 as [|ev st st' _ IH _ Hstep].
  - split; [|split; discriminate].
    intros pre x post H. destruct pre; discriminate H.
  - exact (handle_trace_inv ev st st' Hstep IH).
Qed.

(** X26: the window only kills nodes it has started: in every reachable
    state, every [rosnode kill] among the processes started so far comes
    after a [rosbag] process that was given the killed name as its node
    name; and while a session is on, the node of its name was started. *)
Theorem kills_only_started_nodes (st : Impl) :
  reachable st ->
  (forall pre x post,
      started st = (pre ++ kill x :: post)%list ->
      exists p,
        In p pre /\ program p = "rosbag" /\
        exists args, arguments p = args << Text ("__name:=" ++ x)) /\
  (is_playing st = true -> node_started (playNode st) (started st)) /\
  (is_recording st = true -> node_started (recordNode st) (started st)).
Proof. exact (reachable_trace_inv st). Qed.

Lemma kills_only_started_nodes_witness :
  reachable played_and_stopped /\
  started played_and_stopped
  = ([play_process 3 (after [OpenTriggered "/a.bag" (Some ten_seconds)])]
     ++ kill "play_3" :: [])%list /\
  exists p,
    In p [play_process 3 (after [OpenTriggered "/a.bag" (Some ten_seconds)])] /\
    program p = "rosbag" /\
    exists args, arguments p = args << Text ("__name:=" ++ "play_3").
Proof.
  assert (Hreach : reachable played_and_stopped)
    by (apply (run_reachable to_played_and_stopped init);
        [apply reachable_init | reflexivity]).
  assert (Heq : started played_and_stopped
                = ([play_process 3
                      (after [OpenTriggered "/a.bag" (Some ten_seconds)])]
                   ++ kill "play_3" :: [])%list) by reflexivity.
  split; [exact Hreach|]. split; [exact Heq|].
  exact (proj1 (kills_only_started_nodes played_and_stopped Hreach)
           _ "play_3" [] Heq).
Defined.

(** ** Configuration *)

(** X27: an accepted configuration dialog takes effect on the next play
    and not before: [config()] starts and kills nothing and leaves a
    running player alone, and the next [play()] passes [--clock] exactly
    when the dialog's clock box was checked, the dialog's rate, and [-l]
    exactly when its loop box was checked. A rejected dialog changes
    nothing. *)
Theorem config_applies_to_next_play (dialog : PlayerConfig) (now : N)
  (st : Impl) :
  isEmpty (filePath st) = false ->
  config None st = Done st /\
  exists st1 st2,
    config (Some dialog) st = Done st1 /\
    started st1 = started st /\
    is_playing st1 = is_playing st /\
    playNode st1 = playNode st /\
    play now st1 = Done st2 /\
    started st2 = started st << play_process now st1 /\
    play_options st1
    = ([Text "play"; Text (filePath st); Text "-q"]
       ++ (if isClockChecked dialog then [Text "--clock"] else [])
       ++ [Text "-r"; Number (dialog_rate dialog);
           Text "-s"; Number (timeSpin st)]
       ++ (if isLoopChecked dialog then [Text "-l"] else [])
       ++ [Text "--topics"])%list.
Proof.
  intros Hpath. split; [reflexivity|].
  unfold config. eexists. eexists.
  split; [reflexivity|]. fields.
  split; [reflexivity|]. split; [reflexivity|]. split; [reflexivity|].
  rewrite play_starts_player_aux by exact Hpath. fields.
  split; [reflexivity|]. split; reflexivity.
Qed.

Lemma config_applies_to_next_play_witness :
  isEmpty (filePath both_running) = false /\
  exists st1 st2,
    config (Some slow_loop) both_running = Done st1 /\
    started st1 = started both_running /\
    is_playing st1 = is_playing both_running /\
    playNode st1 = playNode both_running /\
    play 9 st1 = Done st2 /\
    started st2 = started both_running << play_process 9 st1 /\
    play_options st1
    = ([Text "play"; Text (filePath both_running); Text "-q"]
       ++ (if isClockChecked slow_loop then [Text "--clock"] else [])
       ++ [Text "-r"; Number (dialog_rate slow_loop);
           Text "-s"; Number (timeSpin both_running)]
       ++ (if isLoopChecked slow_loop then [Text "-l"] else [])
       ++ [Text "--topics"])%list.
Proof.
  split; [reflexivity|].
  exact (proj2 (config_applies_to_next_play slow_loop 9 both_running eq_refl)).
Defined.
